(** * python-irodsclient: the session engine of [irods/session.py]

    A shallow embedding of [iRODSSession]: the wire envelope, the socket
    as a log of sent messages plus a queue of replies, the lazy
    challenge/response login, the RPC receive step with its error
    mapping, the query execution with its empty-result policy, the
    descriptor operations and the metadata operations.

    Python exceptions are values of [exn]; a method of the session is a
    function from the session to an outcome and the session afterwards,
    so that what a method did before it raised stays visible. *)

From Stdlib Require Import ZArith List String Ascii Bool Lia.
From Stdlib Require Import Strings.Byte.
Import ListNotations.

Local Open Scope string_scope.
Local Open Scope Z_scope.
Local Open Scope list_scope.

(** ** Byte strings *)

Definition bytes := list byte.

Definition byte_of_Z (z : Z) : byte :=
  match Byte.of_N (Z.to_N (z mod 256)) with
  | Some b => b
  | None => x00
  end.

Definition Z_of_byte (b : byte) : Z := Z.of_N (Byte.to_N b).

(** [struct.pack("%ds" % n, s)]: the string cut to [n] bytes, or filled
    up to [n] bytes with null bytes. *)
Definition struct_pack_s (n : nat) (s : bytes) : bytes :=
  firstn n s ++ repeat x00 (n - List.length s).

(** [str.replace('\x00', '\x01')] on a byte string. *)
Definition replace_x00_x01 (s : bytes) : bytes :=
  map (fun b => if Byte.eqb b x00 then x01 else b) s.

(** ** [hashlib.md5] (RFC 1321) on 32-bit words held in [Z] *)

Module MD5.

Definition mask32 : Z := 0xFFFFFFFF.
Definition w32 (x : Z) : Z := Z.land x mask32.
Definition add32 (x y : Z) : Z := w32 (x + y).
Definition not32 (x : Z) : Z := Z.lxor x mask32.
Definition rotl32 (x c : Z) : Z :=
  w32 (Z.lor (Z.shiftl x c) (Z.shiftr x (32 - c))).

Definition shifts : list Z :=
  [7; 12; 17; 22; 7; 12; 17; 22; 7; 12; 17; 22; 7; 12; 17; 22;
   5; 9; 14; 20; 5; 9; 14; 20; 5; 9; 14; 20; 5; 9; 14; 20;
   4; 11; 16; 23; 4; 11; 16; 23; 4; 11; 16; 23; 4; 11; 16; 23;
   6; 10; 15; 21; 6; 10; 15; 21; 6; 10; 15; 21; 6; 10; 15; 21].

Definition sines : list Z :=
  [0xd76aa478; 0xe8c7b756; 0x242070db; 0xc1bdceee;
   0xf57c0faf; 0x4787c62a; 0xa8304613; 0xfd469501;
   0x698098d8; 0x8b44f7af; 0xffff5bb1; 0x895cd7be;
   0x6b901122; 0xfd987193; 0xa679438e; 0x49b40821;
   0xf61e2562; 0xc040b340; 0x265e5a51; 0xe9b6c7aa;
   0xd62f105d; 0x02441453; 0xd8a1e681; 0xe7d3fbc8;
   0x21e1cde6; 0xc33707d6; 0xf4d50d87; 0x455a14ed;
   0xa9e3e905; 0xfcefa3f8; 0x676f02d9; 0x8d2a4c8a;
   0xfffa3942; 0x8771f681; 0x6d9d6122; 0xfde5380c;
   0xa4beea44; 0x4bdecfa9; 0xf6bb4b60; 0xbebfbc70;
   0x289b7ec6; 0xeaa127fa; 0xd4ef3085; 0x04881d05;
   0xd9d4d039; 0xe6db99e5; 0x1fa27cf8; 0xc4ac5665;
   0xf4292244; 0x432aff97; 0xab9423a7; 0xfc93a039;
   0x655b59c3; 0x8f0ccc92; 0xffeff47d; 0x85845dd1;
   0x6fa87e4f; 0xfe2ce6e0; 0xa3014314; 0x4e0811a1;
   0xf7537e82; 0xbd3af235; 0x2ad7d2bb; 0xeb86d391].

(** Little-endian words and byte strings. *)
Definition le_bytes (n : nat) (x : Z) : bytes :=
  map (fun i => byte_of_Z (Z.shiftr x (8 * Z.of_nat i))) (seq 0 n).

Fixpoint le_word (bs : bytes) : Z :=
  match bs with
  | [] => 0
  | b :: rest => Z_of_byte b + 256 * le_word rest
  end.

Fixpoint chunks (k : nat) (count : nat) (bs : bytes) : list bytes :=
  match count with
  | O => []
  | S count' => firstn k bs :: chunks k count' (skipn k bs)
  end.

(** The message, one [0x80] byte, null bytes up to 56 modulo 64, and
    the bit length on 8 bytes. *)
Definition pad (message : bytes) : bytes :=
  let len := Z.of_nat (List.length message) in
  let zeros := Z.to_nat ((55 - len) mod 64) in
  message ++ [x80] ++ repeat x00 zeros ++ le_bytes 8 ((8 * len) mod 2 ^ 64).

Definition state : Type := Z * Z * Z * Z.

Definition init : state := (0x67452301, 0xefcdab89, 0x98badcfe, 0x10325476).

Definition round (words : list Z) (st : state) (i : nat) : state :=
  let '(a, b, c, d) := st in
  let zi := Z.of_nat i in
  let '(f, g) :=
    if zi <? 16 then
      (Z.lor (Z.land b c) (Z.land (not32 b) d), zi)
    else if zi <? 32 then
      (Z.lor (Z.land d b) (Z.land (not32 d) c), (5 * zi + 1) mod 16)
    else if zi <? 48 then
      (Z.lxor b (Z.lxor c d), (3 * zi + 5) mod 16)
    else
      (Z.lxor c (Z.lor b (not32 d)), (7 * zi) mod 16) in
  let f' := add32 (add32 (add32 f a) (nth i sines 0)) (nth (Z.to_nat g) words 0) in
  (d, add32 b (rotl32 f' (nth i shifts 0)), b, c).

Definition block (st : state) (chunk : bytes) : state :=
  let words := map le_word (chunks 4 16 chunk) in
  let '(a0, b0, c0, d0) := st in
  let '(a, b, c, d) := fold_left (round words) (seq 0 64) st in
  (add32 a0 a, add32 b0 b, add32 c0 c, add32 d0 d).

Definition digest (message : bytes) : bytes :=
  let padded := pad message in
  let '(a, b, c, d) :=
    fold_left block (chunks 64 (List.length padded / 64) padded) init in
  le_bytes 4 a ++ le_bytes 4 b ++ le_bytes 4 c ++ le_bytes 4 d.

End MD5.

Definition hex_digit (n : Z) : ascii :=
  nth (Z.to_nat n) (list_ascii_of_string "0123456789abcdef") "0"%char.

Fixpoint hexdigest (bs : bytes) : string :=
  match bs with
  | [] => EmptyString
  | b :: rest =>
      String (hex_digit (Z_of_byte b / 16))
        (String (hex_digit (Z_of_byte b mod 16)) (hexdigest rest))
  end.




(** ** [os.path.basename] and [os.path.dirname] (posixpath) *)

Definition is_slash (c : ascii) : bool := Ascii.eqb c "/"%char.

(** [(p[:i], p[i:])] for [i = p.rfind('/') + 1]. *)
Fixpoint rsplit_slash (p : string) : string * string :=
  match p with
  | EmptyString => (EmptyString, EmptyString)
  | String c rest =>
      match rsplit_slash rest with
      | (EmptyString, _) =>
          if is_slash c then (String c EmptyString, rest)
          else (EmptyString, String c rest)
      | (head, tail) => (String c head, tail)
      end
  end.

(** [s.rstrip('/')]. *)
Fixpoint rstrip_slash (s : string) : string :=
  match s with
  | EmptyString => EmptyString
  | String c rest =>
      match rstrip_slash rest with
      | EmptyString => if is_slash c then EmptyString else String c EmptyString
      | kept => String c kept
      end
  end.

(** ['/' * n]. *)
Fixpoint slashes (n : nat) : string :=
  match n with
  | O => EmptyString
  | S n' => String "/"%char (slashes n')
  end.

Definition basename (p : string) : string := snd (rsplit_slash p).

Definition dirname (p : string) : string :=
  let head := fst (rsplit_slash p) in
  if negb (String.eqb head "")
     && negb (String.eqb head (slashes (String.length head)))
  then rstrip_slash head
  else head.


(** ** Exceptions

    The exceptions [session.py] raises itself, the classes it imports
    from the [exception] module, and the errors of the Python runtime
    the modelled code can run into. *)

Inductive exn : Type :=
| Exception (message : string)      (* [raise Exception("...")] *)
| CAT_NO_ROWS_FOUND                 (* [exception.CAT_NO_ROWS_FOUND] *)
| CollectionDoesNotExist            (* [exception.CollectionDoesNotExist] *)
| DataObjectDoesNotExist            (* [exception.DataObjectDoesNotExist] *)
| iRODSException (name : string)    (* any other class of [exception] *)
| socket_error                      (* no reply can be read *)
| ParseError                        (* a body that is not of the asked class *)
| AttributeError                    (* [self.socket] is [None] *)
| KeyError.                         (* a key missing from a dict or a row *)

(** The name of the Python class an exception is an instance of. *)
Definition class_name (e : exn) : string :=
  match e with
  | Exception _ => "Exception"
  | CAT_NO_ROWS_FOUND => "CAT_NO_ROWS_FOUND"
  | CollectionDoesNotExist => "CollectionDoesNotExist"
  | DataObjectDoesNotExist => "DataObjectDoesNotExist"
  | iRODSException name => name
  | socket_error => "socket.error"
  | ParseError => "ParseError"
  | AttributeError => "AttributeError"
  | KeyError => "KeyError"
  end.

(** ** The catalog model ([models]) *)

Inductive Model : Type :=
| Collection | DataObject | Resource | User
| DataObjectMeta | CollectionMeta | ResourceMeta | UserMeta.

Definition Model_eqb (a b : Model) : bool :=
  match a, b with
  | Collection, Collection | DataObject, DataObject
  | Resource, Resource | User, User
  | DataObjectMeta, DataObjectMeta | CollectionMeta, CollectionMeta
  | ResourceMeta, ResourceMeta | UserMeta, UserMeta => true
  | _, _ => false
  end.

(** A column is an attribute of a model class: [Collection.name] is
    [attr Collection "name"]. *)
Definition Column : Type := Model * string.

Definition attr (m : Model) (a : string) : Column := (m, a).

Definition Column_eqb (c d : Column) : bool :=
  Model_eqb (fst c) (fst d) && String.eqb (snd c) (snd d).

(** ** Queries and result sets ([query], [results], [message])

    The classes [Query] and [ResultSet] and the function
    [empty_gen_query_out] are imported by [session.py] and defined
    elsewhere in the package. *)

(** Modelled from the spec: a condition of a query, [column == value];
    the [query] module is missing. A query holds a conjunction of
    equality conditions. *)
Record Criterion : Type := mkCriterion {
  criterion_column : Column;
  criterion_value : string
}.

(** [column == value]. *)
Definition col_eq (c : Column) (v : string) : Criterion := mkCriterion c v.

(** Modelled from the spec: the class [Query] of the missing [query]
    module: an ordered set of requested columns plus a conjunction of
    equality conditions. *)
Record Query : Type := mkQuery {
  columns : list Column;
  criteria : list Criterion
}.

(** What [Query(sess, *args)] is given: model classes and columns. *)
Inductive QueryArg : Type :=
| of_model (m : Model)
| of_column (c : Column).

Definition add_column (cols : list Column) (c : Column) : list Column :=
  if existsb (Column_eqb c) cols then cols else cols ++ [c].

(** Modelled from the spec: [Query.filter] of the missing [query]
    module; the conditions given are added to the conjunction and the
    columns stay. *)
Definition filter (q : Query) (cs : list Criterion) : Query :=
  mkQuery (columns q) (criteria q ++ cs).

(** A row, indexable by column. *)
Definition Row : Type := list (Column * string).

(** Modelled from the spec: the decoded table [GenQueryOut] of the
    missing [message] module: its columns and, row by row, its values. *)
Record GenQueryOut : Type := mkGenQueryOut {
  attributes : list Column;
  table : list (list string)
}.

(** Modelled from the spec: [empty_gen_query_out] of the missing
    [message] module: the table with the columns given and no row. *)
Definition empty_gen_query_out (cols : list Column) : GenQueryOut :=
  mkGenQueryOut cols [].

(** Modelled from the spec: the class [ResultSet] of the missing
    [results] module: an ordered sequence of rows, each indexable by
    the requested columns. *)
Record ResultSet : Type := mkResultSet {
  result_columns : list Column;
  rows : list Row
}.

(** Modelled from the spec: [ResultSet(raw)] wraps the decoded table,
    keeping the order of rows and columns. *)
Definition ResultSet_of (raw : GenQueryOut) : ResultSet :=
  mkResultSet (attributes raw) (map (combine (attributes raw)) (table raw)).

(** Modelled from the spec: [results.length], the number of rows. *)
Definition length (r : ResultSet) : Z := Z.of_nat (List.length (rows r)).

(** ** The wrapper objects ([collection], [data_object], [meta])

    The classes [iRODSCollection], [iRODSDataObject] and [iRODSMeta] are
    imported by [session.py] and defined elsewhere in the package. *)

(** Modelled from the spec: [iRODSCollection(sess, row)] of the missing
    [collection] module; the wrapper only caches the row it was built
    from. *)
Record iRODSCollection : Type := mkCollection {
  collection_row : Row
}.

(** Modelled from the spec: [iRODSDataObject(sess, parent, row)] of the
    missing [data_object] module; the wrapper only caches its parent and
    the row it was built from. *)
Record iRODSDataObject : Type := mkDataObject {
  data_object_parent : iRODSCollection;
  data_object_row : Row
}.

(** Modelled from the spec: [iRODSMeta(name, value, units, id=...)] of
    the missing [meta] module: a (name, value, units) triple plus an
    optional identifier. *)
Record iRODSMeta : Type := mkMeta {
  meta_name : string;
  meta_value : string;
  meta_units : string;
  meta_id : option string
}.

(** ** Messages ([message])

    The envelope class [iRODSMessage] and the structures it carries are
    imported by [session.py] and defined elsewhere in the package; the
    fields below are the ones [session.py] writes and reads. *)

(** Modelled from the spec: the challenge envelope of the missing
    [message] module carries the nonce the server issued. *)
Record authRequestOut : Type := mkAuthRequestOut { challenge : bytes }.

(** Modelled from the spec: the seek reply of the missing [message]
    module carries the resulting offset. *)
Record fileLseekOut : Type := mkFileLseekOut { offset : Z }.

(** Modelled from the spec: the structured body of an envelope, a named,
    ordered field set specific to each operation; the fields are those
    [session.py] passes to the constructors of the missing [message]
    module. *)
Inductive MainMessage : Type :=
| StartupPack (user zone : string)
| authRequestOut_PI (body : authRequestOut)
| authResponseInp (response : bytes) (username : string)
| DataObjInp (objPath : string)
    (createMode openFlags offset dataSize numThreads oprType : Z)
    (KeyValPair_PI : list (string * string))
| dataObjReadInp (l1descInx len : Z)
| dataObjWriteInp (dataObjInx len : Z)
| fileLseekInp (fileInx offset whence : Z)
| fileLseekOut_PI (body : fileLseekOut)
| dataObjCloseInp (l1descInx : Z)
| ModAVUMetadataInp (args : list string)
| GenQueryInp (q : Query)
| GenQueryOut_PI (body : GenQueryOut).

(** Modelled from the spec: the envelope [iRODSMessage] of the missing
    [message] module: type tag, structured body, error segment, raw
    payload and the integer status field. An absent error segment is the
    empty string. *)
Record iRODSMessage : Type := mkMessage {
  type : string;
  msg : option MainMessage;
  error : string;
  bs : option bytes;
  int_info : Z
}.

(** [iRODSMessage(type, msg=..., bs=..., int_info=...)]. *)
Definition message (type : string) (msg : option MainMessage)
    (bs : option bytes) (int_info : Z) : iRODSMessage :=
  mkMessage type msg "" bs int_info.

(** The classes [get_main_message] can be asked to unpack a body as. *)
Class Unpack (A : Type) : Type := unpack : MainMessage -> option A.

#[export] Instance Unpack_authRequestOut : Unpack authRequestOut :=
  fun body => match body with authRequestOut_PI b => Some b | _ => None end.

#[export] Instance Unpack_fileLseekOut : Unpack fileLseekOut :=
  fun body => match body with fileLseekOut_PI b => Some b | _ => None end.

#[export] Instance Unpack_GenQueryOut : Unpack GenQueryOut :=
  fun body => match body with GenQueryOut_PI b => Some b | _ => None end.

(** ** The session and its socket

    The socket is the log of what was sent, in order, and the queue of
    envelopes still to be received. Each log entry also records the
    value the [authenticated] flag had when the message went out. *)

Record Socket : Type := mkSocket {
  outgoing : list (bool * iRODSMessage);
  incoming : list iRODSMessage
}.

Record iRODSSession : Type := mkSession {
  host : string;
  port : Z;
  user : string;
  zone : string;
  password : string;
  socket : option Socket;
  authenticated : bool
}.

Definition set_socket (s : iRODSSession) (k : option Socket) : iRODSSession :=
  mkSession (host s) (port s) (user s) (zone s) (password s) k
    (authenticated s).

Definition set_authenticated (s : iRODSSession) (b : bool) : iRODSSession :=
  mkSession (host s) (port s) (user s) (zone s) (password s) (socket s) b.

(** What the session has sent so far. *)
Definition wire (s : iRODSSession) : list (bool * iRODSMessage) :=
  match socket s with
  | Some k => outgoing k
  | None => []
  end.

(** What the session can still receive. *)
Definition inbox (s : iRODSSession) : list iRODSMessage :=
  match socket s with
  | Some k => incoming k
  | None => []
  end.

(** ** Methods: state and exceptions *)

Definition M (A : Type) : Type := iRODSSession -> (exn + A) * iRODSSession.

Definition ret {A : Type} (a : A) : M A := fun s => (inr a, s).

Definition raise {A : Type} (e : exn) : M A := fun s => (inl e, s).

Definition bind {A B : Type} (m : M A) (f : A -> M B) : M B :=
  fun s =>
    match m s with
    | (inl e, s') => (inl e, s')
    | (inr a, s') => f a s'
    end.

(** [try: body except cls: handler], [catches e] telling whether [e] is
    an instance of [cls]. *)
Definition try_except {A : Type} (body : M A) (catches : exn -> bool)
    (handler : M A) : M A :=
  fun s =>
    match body s with
    | (inl e, s') => if catches e then handler s' else (inl e, s')
    | (inr a, s') => (inr a, s')
    end.

Definition gets {A : Type} (f : iRODSSession -> A) : M A :=
  fun s => (inr (f s), s).

Definition modify (f : iRODSSession -> iRODSSession) : M unit :=
  fun s => (inr tt, f s).

Declare Scope method_scope.
Delimit Scope method_scope with method.
Notation "x <- m ;; k" := (bind m (fun x => k))
  (at level 100, m at next level, right associativity) : method_scope.
Notation "m ;; k" := (bind m (fun _ => k))
  (at level 100, right associativity) : method_scope.
Local Open Scope method_scope.

(** A dict literal, with [d[k]] raising [KeyError]. *)
Fixpoint dict_get {K V : Type} (eqb : K -> K -> bool) (d : list (K * V))
    (k : K) : exn + V :=
  match d with
  | [] => inl KeyError
  | (k', v) :: rest => if eqb k' k then inr v else dict_get eqb rest k
  end.

Definition lift {A : Type} (r : exn + A) : M A := fun s => (r, s).

Fixpoint for_each {A B : Type} (f : A -> M B) (l : list A) : M (list B) :=
  match l with
  | [] => ret []
  | a :: rest => b <- f a ;; bs <- for_each f rest ;; ret (b :: bs)
  end.

(** ** [class iRODSSession] *)

(** What [session.py] imports and this file does not define: the table
    from status codes to exceptions ([exception]), the registry of
    operation codes ([api_number]), the length of the password buffer
    (the package's [__init__]) and the columns of each model ([models]). *)
Class Imports : Type := {
  get_exception_by_code : Z -> exn;
  api_number : string -> Z;
  MAX_PASSWORD_LENGTH : nat;
  model_columns : Model -> list Column
}.

Section Session.

Context {imports : Imports}.

(** Modelled from the spec: [Query(sess, *args)] of the [query] module,
    which is not part of [session.py]; the requested columns are those
    of the models and the columns given, in order, each once. *)
Definition Query_of (args : list QueryArg) : Query :=
  mkQuery
    (fold_left
       (fun cols arg =>
          match arg with
          | of_model m => fold_left add_column (model_columns m) cols
          | of_column c => add_column cols c
          end)
       args [])
    [].

(** Modelled from the spec: [query._message()], the wire request naming
    the selected columns and the conditions. *)
Definition _message (q : Query) : MainMessage := GenQueryInp q.

(** Modelled from the spec: [row[column]] on a row of the missing
    [results] module, raising [KeyError] for a column the row lacks. *)
Definition row_get (row : Row) (c : Column) : M string :=
  lift (dict_get Column_eqb row c).

(** Modelled from the spec: [parent.id] of the missing [collection]
    module, read from the cached row. *)
Definition collection_id (c : iRODSCollection) : M string :=
  row_get (collection_row c) (attr Collection "id").

(** Modelled from the spec: [message.get_main_message(cls)] of the
    missing [message] module decodes the body as a structure of class
    [cls]; a body that is absent or of another class is an error. *)
Definition get_main_message (A : Type) `{Unpack A} (m : iRODSMessage) : M A :=
  match msg m with
  | Some body =>
      match unpack body with
      | Some a => ret a
      | None => raise ParseError
      end
  | None => raise ParseError
  end.

(** [self.socket.sendall(message.pack())]: the message goes to the log
    of the socket; [pack], of the missing [message] module, is taken to
    lose nothing. *)
Definition _send (message : iRODSMessage) : M unit :=
  fun s =>
    match socket s with
    | None => (inl AttributeError, s)
    | Some k =>
        (inr tt,
         set_socket s
           (Some (mkSocket (outgoing k ++ [(authenticated s, message)])
                    (incoming k))))
    end.

(** Modelled from the spec: [iRODSMessage.recv(self.socket)] of the
    missing [message] module reads exactly one envelope from the
    stream; with none to read the transport fails. *)
Definition iRODSMessage_recv : M iRODSMessage :=
  fun s =>
    match socket s with
    | None => (inl AttributeError, s)
    | Some k =>
        match incoming k with
        | [] => (inl socket_error, s)
        | m :: rest => (inr m, set_socket s (Some (mkSocket (outgoing k) rest)))
        end
    end.

Definition _recv : M iRODSMessage :=
  msg <- iRODSMessage_recv ;;
  if int_info msg <? 0 then raise (get_exception_by_code (int_info msg))
  else ret msg.

(** A [hashlib.md5()] object is the data it was fed so far. *)
Definition md5_new : bytes := [].
Definition md5_update (m data : bytes) : bytes := m ++ data.
Definition md5_digest (m : bytes) : bytes := MD5.digest m.

(** The digest of [_login], from the challenge and the password. *)
Definition encoded_pwd (challenge : bytes) (password : string) : bytes :=
  let padded_pwd :=
    struct_pack_s MAX_PASSWORD_LENGTH (list_byte_of_string password) in
  let m := md5_new in
  let m := md5_update m challenge in
  let m := md5_update m padded_pwd in
  let encoded_pwd := md5_digest m in
  replace_x00_x01 encoded_pwd.

Definition auth_req : iRODSMessage := message "RODS_API_REQ" None None 703.

Definition pwd_request (response : bytes) (username : string) : iRODSMessage :=
  message "RODS_API_REQ" (Some (authResponseInp response username)) None 704.

Definition _login : M unit :=
  _send auth_req ;;
  challenge_msg <- _recv ;;
  body <- get_main_message authRequestOut challenge_msg ;;
  password <- gets password ;;
  user <- gets user ;;
  _send (pwd_request (encoded_pwd (challenge body) password) user) ;;
  auth_response <- _recv ;;
  if negb (String.eqb (error auth_response) "") then
    raise (Exception "Unsuccessful login attempt")
  else
    modify (fun s => set_authenticated s true).

(** [if not self.authenticated: self._login()]. *)
Definition ensure_authenticated : M unit :=
  authenticated <- gets authenticated ;;
  if negb authenticated then _login else ret tt.

Definition query (args : list QueryArg) : Query := Query_of args.

Definition execute_query (query : Query) : M ResultSet :=
  ensure_authenticated ;;
  let message_body := _message query in
  _send (message "RODS_API_REQ" (Some message_body) None 702) ;;
  try_except
    (result_message <- _recv ;;
     results <- get_main_message GenQueryOut result_message ;;
     ret (ResultSet_of results))
    (fun e => match e with CAT_NO_ROWS_FOUND => true | _ => false end)
    (ret (ResultSet_of (empty_gen_query_out (columns query)))).

(** Modelled from the spec: [Query.all()] of the [query] module hands
    the query to the session it was built from. *)
Definition all (q : Query) : M ResultSet := execute_query q.

(** [results[0]]. *)
Definition first_row (results : ResultSet) : Row := hd [] (rows results).

Definition get_collection (path : string) : M iRODSCollection :=
  ensure_authenticated ;;
  let query :=
    filter (query [of_model Collection])
      [col_eq (attr Collection "name") path] in
  results <- execute_query query ;;
  if length results =? 1 then ret (mkCollection (first_row results))
  else raise CollectionDoesNotExist.

Definition get_data_object (path : string) : M iRODSDataObject :=
  ensure_authenticated ;;
  parent <- get_collection (dirname path) ;;
  parent_id <- collection_id parent ;;
  results <-
    all (filter
           (filter (query [of_model DataObject])
              [col_eq (attr DataObject "name") (basename path)])
           [col_eq (attr DataObject "collection_id") parent_id]) ;;
  if length results =? 1 then ret (mkDataObject parent (first_row results))
  else raise DataObjectDoesNotExist.

Definition api_request (name : string) (body : MainMessage)
    (bs : option bytes) : iRODSMessage :=
  message "RODS_API_REQ" (Some body) bs (api_number name).

Definition close_file (desc : Z) : M unit :=
  ensure_authenticated ;;
  let message_body := dataObjCloseInp desc in
  _send (api_request "DATA_OBJ_CLOSE201_AN" message_body None) ;;
  response <- _recv ;;
  ret tt.

Definition create_data_object (path : string) : M iRODSDataObject :=
  ensure_authenticated ;;
  let message_body :=
    DataObjInp path 420 (* 0644 *) 0 0 (-1) 0 0 [("dataType", "generic")] in
  _send (api_request "DATA_OBJ_CREATE_AN" message_body None) ;;
  response <- _recv ;;
  let desc := int_info response in
  close_file desc ;;
  get_data_object path.

Definition open_file (path : string) (mode : Z) : M Z :=
  ensure_authenticated ;;
  let message_body := DataObjInp path 0 mode 0 (-1) 0 0 [] in
  _send (api_request "DATA_OBJ_OPEN_AN" message_body None) ;;
  response <- _recv ;;
  ret (int_info response).

Definition read_file (desc size : Z) : M (option bytes) :=
  ensure_authenticated ;;
  let message_body := dataObjReadInp desc size in
  _send (api_request "DATA_OBJ_READ201_AN" message_body None) ;;
  response <- _recv ;;
  ret (bs response).

Definition write_file (desc : Z) (string : bytes) : M Z :=
  ensure_authenticated ;;
  let message_body := dataObjWriteInp desc (Z.of_nat (List.length string)) in
  _send (api_request "DATA_OBJ_WRITE201_AN" message_body (Some string)) ;;
  response <- _recv ;;
  ret (int_info response).

Definition seek_file (desc offset whence : Z) : M Z :=
  ensure_authenticated ;;
  let message_body := fileLseekInp desc offset whence in
  _send (api_request "DATA_OBJ_LSEEK201_AN" message_body None) ;;
  response <- _recv ;;
  body <- get_main_message fileLseekOut response ;;
  match body with
  | mkFileLseekOut offset => ret offset
  end.

Definition unlink_data_object (path : string) : M unit :=
  ensure_authenticated ;;
  let message_body := DataObjInp path 0 0 0 (-1) 0 0 [] in
  _send (api_request "DATA_OBJ_UNLINK_AN" message_body None) ;;
  response <- _recv ;;
  ret tt.

Definition resource_types : list (Model * string) :=
  [(DataObject, "d"); (Collection, "c"); (Resource, "r"); (User, "r")].

Definition _model_class_to_resource_type (model_cls : Model) : exn + string :=
  dict_get Model_eqb resource_types model_cls.

(** The two dispatch tables of [get_meta]. *)
Definition meta_models : list (string * Model) :=
  [("d", DataObjectMeta); ("c", CollectionMeta); ("r", ResourceMeta);
   ("u", UserMeta)].

Definition meta_conditions (path : string) : list (string * list Criterion) :=
  [("d", [col_eq (attr Collection "name") (dirname path);
          col_eq (attr DataObject "name") (basename path)]);
   ("c", [col_eq (attr Collection "name") path]);
   ("r", [col_eq (attr Resource "name") path]);
   ("u", [col_eq (attr User "name") path])].

(** The query [get_meta] builds once the model and the conditions are
    chosen. *)
Definition meta_query (model : Model) (conditions : list Criterion) : Query :=
  filter
    (query [of_column (attr model "id"); of_column (attr model "name");
            of_column (attr model "value"); of_column (attr model "units")])
    conditions.

Definition get_meta (model_cls : Model) (path : string) : M (list iRODSMeta) :=
  resource_type <- lift (_model_class_to_resource_type model_cls) ;;
  model <- lift (dict_get String.eqb meta_models resource_type) ;;
  conditions <- lift (dict_get String.eqb (meta_conditions path) resource_type) ;;
  results <- all (meta_query model conditions) ;;
  for_each
    (fun row =>
       name <- row_get row (attr model "name") ;;
       value <- row_get row (attr model "value") ;;
       units <- row_get row (attr model "units") ;;
       id <- row_get row (attr model "id") ;;
       ret (mkMeta name value units (Some id)))
    (rows results).

Definition add_meta (model_cls : Model) (path : string) (meta : iRODSMeta)
    : M unit :=
  resource_type <- lift (_model_class_to_resource_type model_cls) ;;
  let message_body :=
    ModAVUMetadataInp
      ["add"; String.append "-" resource_type; path;
       meta_name meta; meta_value meta; meta_units meta] in
  _send (api_request "MOD_AVU_METADATA_AN" message_body None) ;;
  response <- _recv ;;
  ret tt.

Definition remove_meta (model_cls : Model) (path : string) (meta : iRODSMeta)
    : M unit :=
  resource_type <- lift (_model_class_to_resource_type model_cls) ;;
  let message_body :=
    ModAVUMetadataInp
      ["rm"; String.append "-" resource_type; path;
       meta_name meta; meta_value meta; meta_units meta] in
  _send (api_request "MOD_AVU_METADATA_AN" message_body None) ;;
  response <- _recv ;;
  ret tt.

Definition copy_meta (src_model_cls dest_model_cls : Model)
    (src dest : string) : M unit :=
  src_resource_type <- lift (_model_class_to_resource_type src_model_cls) ;;
  dest_resource_type <- lift (_model_class_to_resource_type dest_model_cls) ;;
  let message_body :=
    ModAVUMetadataInp
      ["cp"; String.append "-" src_resource_type;
       String.append "-" dest_resource_type; src; dest] in
  _send (api_request "MOD_AVU_METADATA_AN" message_body None) ;;
  response <- _recv ;;
  ret tt.

(** ** The public operations as one type

    A call of a public method with its arguments, and what running it
    does to the session; the value returned is dropped, the exception
    raised is kept. *)

Inductive Call : Type :=
| call_get_collection (path : string)
| call_get_data_object (path : string)
| call_create_data_object (path : string)
| call_open_file (path : string) (mode : Z)
| call_read_file (desc size : Z)
| call_write_file (desc : Z) (data : bytes)
| call_seek_file (desc offset whence : Z)
| call_close_file (desc : Z)
| call_unlink_data_object (path : string)
| call_execute_query (q : Query)
| call_get_meta (model_cls : Model) (path : string)
| call_add_meta (model_cls : Model) (path : string) (meta : iRODSMeta)
| call_remove_meta (model_cls : Model) (path : string) (meta : iRODSMeta)
| call_copy_meta (src_model_cls dest_model_cls : Model) (src dest : string).

Definition outcome {A : Type} (m : M A) (s : iRODSSession)
    : option exn * iRODSSession :=
  match m s with
  | (inl e, s') => (Some e, s')
  | (inr _, s') => (None, s')
  end.

Definition run (c : Call) : iRODSSession -> option exn * iRODSSession :=
  match c with
  | call_get_collection path => outcome (get_collection path)
  | call_get_data_object path => outcome (get_data_object path)
  | call_create_data_object path => outcome (create_data_object path)
  | call_open_file path mode => outcome (open_file path mode)
  | call_read_file desc size => outcome (read_file desc size)
  | call_write_file desc data => outcome (write_file desc data)
  | call_seek_file desc offset whence => outcome (seek_file desc offset whence)
  | call_close_file desc => outcome (close_file desc)
  | call_unlink_data_object path => outcome (unlink_data_object path)
  | call_execute_query q => outcome (execute_query q)
  | call_get_meta model_cls path => outcome (get_meta model_cls path)
  | call_add_meta model_cls path meta => outcome (add_meta model_cls path meta)
  | call_remove_meta model_cls path meta =>
      outcome (remove_meta model_cls path meta)
  | call_copy_meta src_cls dest_cls src dest =>
      outcome (copy_meta src_cls dest_cls src dest)
  end.

(** The methods that start with [if not self.authenticated: self._login()]. *)
Definition guarded (c : Call) : bool :=
  match c with
  | call_get_meta _ _
  | call_add_meta _ _ _ | call_remove_meta _ _ _ | call_copy_meta _ _ _ _ =>
      false
  | _ => true
  end.

(** The two messages of the handshake; every other message is a
    privileged request. *)
Definition handshake (m : iRODSMessage) : bool :=
  match msg m, int_info m with
  | None, 703 => true
  | Some (authResponseInp _ _), 704 => true
  | _, _ => false
  end.

(** A log entry is in order when the message was sent by an
    authenticated session or belongs to the handshake. *)
Definition entry_ok (entry : bool * iRODSMessage) : bool :=
  fst entry || handshake (snd entry).

End Session.

(** ** The session after one send, after one receive *)

Section Steps.

Context {imports : Imports}.

Definition push (s : iRODSSession) (m : iRODSMessage) : iRODSSession :=
  snd (_send m s).

Definition pop (s : iRODSSession) : iRODSSession :=
  snd (iRODSMessage_recv s).

(** The session with other envelopes waiting on its socket. *)
Definition deliver (s : iRODSSession) (replies : list iRODSMessage)
    : iRODSSession :=
  match socket s with
  | Some k => set_socket s (Some (mkSocket (outgoing k) replies))
  | None => s
  end.

(** The session once the challenge was read and answered: the request
    sent, one envelope taken, the digest sent. *)
Definition challenged (s : iRODSSession) (challenge : bytes) : iRODSSession :=
  push (pop (push s auth_req))
    (pwd_request (encoded_pwd challenge (password s)) (user s)).

(** What [_login] does with the final envelope. *)
Definition conclude_login : M unit :=
  auth_response <- _recv ;;
  if negb (String.eqb (error auth_response) "") then
    raise (Exception "Unsuccessful login attempt")
  else
    modify (fun s => set_authenticated s true).

(** The request [execute_query] sends. *)
Definition query_request (q : Query) : iRODSMessage :=
  message "RODS_API_REQ" (Some (_message q)) None 702.

(** The rows of a metadata query as [iRODSMeta] objects, as [get_meta]
    builds them. *)
Definition meta_of_rows (model : Model) (results : ResultSet)
    : M (list iRODSMeta) :=
  for_each
    (fun row =>
       name <- row_get row (attr model "name") ;;
       value <- row_get row (attr model "value") ;;
       units <- row_get row (attr model "units") ;;
       id <- row_get row (attr model "id") ;;
       ret (mkMeta name value units (Some id)))
    (rows results).

(** The requests of [seek_file], [create_data_object] and [close_file]. *)
Definition seek_request (desc offset whence : Z) : iRODSMessage :=
  api_request "DATA_OBJ_LSEEK201_AN" (fileLseekInp desc offset whence) None.

Definition create_request (path : string) : iRODSMessage :=
  api_request "DATA_OBJ_CREATE_AN"
    (DataObjInp path 420 0 0 (-1) 0 0 [("dataType", "generic")]) None.

Definition close_request (desc : Z) : iRODSMessage :=
  api_request "DATA_OBJ_CLOSE201_AN" (dataObjCloseInp desc) None.

(** The queries of [get_collection] and [get_data_object]. *)
Definition collection_query (path : string) : Query :=
  filter (query [of_model Collection]) [col_eq (attr Collection "name") path].

Definition data_object_query (name parent_id : string) : Query :=
  filter
    (filter (query [of_model DataObject])
       [col_eq (attr DataObject "name") name])
    [col_eq (attr DataObject "collection_id") parent_id].

(** What [get_collection] does with the result set of its query. *)
Definition one_collection (results : ResultSet) : M iRODSCollection :=
  if length results =? 1 then ret (mkCollection (first_row results))
  else raise CollectionDoesNotExist.

(** What [get_data_object] does with the result set of its query. *)
Definition one_data_object (parent : iRODSCollection) (results : ResultSet)
    : M iRODSDataObject :=
  if length results =? 1 then ret (mkDataObject parent (first_row results))
  else raise DataObjectDoesNotExist.

End Steps.

(** ** The server side of a seek

    The server is not part of this repository. Where a property needs
    the offset it reports, the server is taken to keep one position per
    descriptor and to move it as POSIX [lseek] does: [whence] 0 sets the
    position, 1 moves it from where it is, 2 from the end of the data. *)

Definition SEEK_SET : Z := 0.
Definition SEEK_CUR : Z := 1.
Definition SEEK_END : Z := 2.

Definition lseek (position size offset whence : Z) : option Z :=
  if whence =? SEEK_SET then Some offset
  else if whence =? SEEK_CUR then Some (position + offset)
  else if whence =? SEEK_END then Some (size + offset)
  else None.

(** The reply of such a server to a seek request, [None] when the
    message is no seek request or [whence] is none of the three. *)
Definition lseek_reply (position size : Z) (request : iRODSMessage)
    : option iRODSMessage :=
  match msg request with
  | Some (fileLseekInp _ offset whence) =>
      match lseek position size offset whence with
      | Some result =>
          Some (mkMessage "RODS_API_REPLY"
                  (Some (fileLseekOut_PI (mkFileLseekOut result))) "" None 0)
      | None => None
      end
  | _ => None
  end.

(** ** A sample setting

    One table of status codes, one registry of operation codes and one
    catalog, to run the methods on concrete sessions. *)

Definition sample_imports : Imports := {|
  get_exception_by_code := fun code =>
    if code =? -808000 then CAT_NO_ROWS_FOUND
    else if code =? -826000 then iRODSException "CAT_INVALID_AUTHENTICATION"
    else if code =? -310000 then iRODSException "USER_FILE_DOES_NOT_EXIST"
    else iRODSException "UnknowniRODSError";
  api_number := fun name =>
    if String.eqb name "DATA_OBJ_CREATE_AN" then 601
    else if String.eqb name "DATA_OBJ_OPEN_AN" then 602
    else if String.eqb name "DATA_OBJ_READ201_AN" then 603
    else if String.eqb name "DATA_OBJ_WRITE201_AN" then 604
    else if String.eqb name "DATA_OBJ_CLOSE201_AN" then 605
    else if String.eqb name "DATA_OBJ_LSEEK201_AN" then 606
    else if String.eqb name "DATA_OBJ_UNLINK_AN" then 615
    else if String.eqb name "MOD_AVU_METADATA_AN" then 706
    else 0;
  MAX_PASSWORD_LENGTH := 50;
  model_columns := fun m =>
    match m with
    | Collection => [attr Collection "id"; attr Collection "name"]
    | DataObject =>
        [attr DataObject "id"; attr DataObject "name";
         attr DataObject "collection_id"]
    | Resource => [attr Resource "id"; attr Resource "name"]
    | User => [attr User "id"; attr User "name"]
    | meta =>
        [attr meta "id"; attr meta "name"; attr meta "value";
         attr meta "units"]
    end
|}.

(** A reply of the server. *)
Definition reply (body : option MainMessage) (int_info : Z) : iRODSMessage :=
  mkMessage "RODS_API_REPLY" body "" None int_info.

(** A connected session of alice that has not logged in yet. *)
Definition connected (replies : list iRODSMessage) : iRODSSession :=
  mkSession "localhost" 1247 "alice" "zoneA" "secret"
    (Some (mkSocket [] replies)) false.

(** A connected session of alice that has logged in. *)
Definition logged_in (replies : list iRODSMessage) : iRODSSession :=
  mkSession "localhost" 1247 "alice" "zoneA" "secret"
    (Some (mkSocket [] replies)) true.

Definition sample_challenge : bytes := list_byte_of_string "0123456789abcdef".

Definition challenge_reply : iRODSMessage :=
  reply (Some (authRequestOut_PI (mkAuthRequestOut sample_challenge))) 0.

Definition report_txt : string := "/zoneA/home/alice/report.txt".

Definition collection_table : GenQueryOut :=
  mkGenQueryOut [attr Collection "id"; attr Collection "name"]
    [["10001"; "/zoneA/home/alice"]].

Definition data_object_table : GenQueryOut :=
  mkGenQueryOut
    [attr DataObject "id"; attr DataObject "name";
     attr DataObject "collection_id"]
    [["10042"; "report.txt"; "10001"]].


(** ** What a method may do to the session

    A method respects a relation between sessions when every run of it
    takes a session to a related one. The relations below speak of the
    log of sent messages: it only grows; a session that has logged in
    stays logged in and marks everything it sends; the login sends the
    handshake and nothing else. *)

Definition respects (R : iRODSSession -> iRODSSession -> Prop) {A : Type}
    (m : M A) : Prop :=
  forall s, R s (snd (m s)).

Definition appended (P : bool * iRODSMessage -> Prop) (s s' : iRODSSession)
    : Prop :=
  exists tail, wire s' = wire s ++ tail /\ Forall P tail.

Definition grows : iRODSSession -> iRODSSession -> Prop :=
  appended (fun _ => True).

Definition stays_authenticated (s s' : iRODSSession) : Prop :=
  authenticated s = true ->
  authenticated s' = true /\ appended (fun entry => fst entry = true) s s'.


Definition same_wire (s s' : iRODSSession) : Prop := wire s' = wire s.

(** The session with its log wiped. A method is blind to the log when
    sessions that differ in their logs only give the same result and
    still differ in their logs only afterwards. *)
Definition forget_log (s : iRODSSession) : iRODSSession :=
  set_socket s
    (match socket s with
     | Some k => Some (mkSocket [] (incoming k))
     | None => None
     end).

Definition log_blind {A : Type} (m : M A) : Prop :=
  forall s t,
    forget_log s = forget_log t ->
    fst (m s) = fst (m t) /\ forget_log (snd (m s)) = forget_log (snd (m t)).

(** No privileged request in the log went out of a session that had not
    logged in. *)
Definition log_ok (s : iRODSSession) : Prop :=
  Forall (fun entry => entry_ok entry = true) (wire s).

(** Replies used below: no row found, a rejected password, a final
    envelope with an error segment, a table, an offset. *)
Definition no_rows_reply : iRODSMessage := reply None (-808000).

Definition rejected_reply : iRODSMessage := reply None (-826000).

Definition error_reply : iRODSMessage :=
  mkMessage "RODS_API_REPLY" None "login failed" None 0.

Definition table_reply (raw : GenQueryOut) : iRODSMessage :=
  reply (Some (GenQueryOut_PI raw)) 0.

Definition offset_reply (offset : Z) : iRODSMessage :=
  reply (Some (fileLseekOut_PI (mkFileLseekOut offset))) 0.

Definition owner_meta : iRODSMeta := mkMeta "owner" "alice" "" None.

(** The request [add_meta] sends for [owner_meta] on the data object
    [report_txt]. *)
Definition add_owner_request : iRODSMessage :=
  mkMessage "RODS_API_REQ"
    (Some (ModAVUMetadataInp
             ["add"; "-d"; report_txt; "owner"; "alice"; ""]))
    "" None 706.

(** Whether an outcome is the raising of an [AuthenticationError]. *)
Definition raises_AuthenticationError {A : Type}
    (r : (exn + A) * iRODSSession) : Prop :=
  exists e, fst r = inl e /\ class_name e = "AuthenticationError".

(** ** What a logged-in session sends

    A logged-in session stays logged in, marks all it sends and sends no
    message of the handshake. *)
Definition quiet (s s' : iRODSSession) : Prop :=
  authenticated s = true ->
  authenticated s' = true
  /\ appended
       (fun entry => fst entry = true /\ handshake (snd entry) = false) s s'.

(** ** Methods that are one request and one reply *)

Section Exchanges.

Context {imports : Imports}.

(** The request of a method that sends one request and reads one reply;
    [None] for the methods that run queries of their own or have no
    login guard. *)
Definition request_of (c : Call) : option iRODSMessage :=
  match c with
  | call_open_file path mode =>
      Some (api_request "DATA_OBJ_OPEN_AN"
              (DataObjInp path 0 mode 0 (-1) 0 0 []) None)
  | call_read_file desc size =>
      Some (api_request "DATA_OBJ_READ201_AN" (dataObjReadInp desc size) None)
  | call_write_file desc data =>
      Some (api_request "DATA_OBJ_WRITE201_AN"
              (dataObjWriteInp desc (Z.of_nat (List.length data)))
              (Some data))
  | call_seek_file desc offset whence =>
      Some (seek_request desc offset whence)
  | call_close_file desc => Some (close_request desc)
  | call_unlink_data_object path =>
      Some (api_request "DATA_OBJ_UNLINK_AN"
              (DataObjInp path 0 0 0 (-1) 0 0 []) None)
  | call_execute_query q => Some (query_request q)
  | _ => None
  end.

End Exchanges.

(** ** Construction and connection *)

(** What [s.connect((host, port))] meets: [None] when the connection
    cannot be opened, otherwise the envelopes the server at that address
    is going to send. *)
Definition Network : Type := string -> Z -> option (list iRODSMessage).

(** The port [configure] takes when none is given. *)
Definition DEFAULT_PORT : Z := 1247.

Section Lifecycle.

Context {imports : Imports}.

(** The network the session lives in, and the status field of a message
    built without [int_info], which the missing [message] module sets. *)
Variable network : Network.
Variable unset_int_info : Z.

(** The message [_connect] announces itself with. *)
Definition startup_message (user zone : string) : iRODSMessage :=
  mkMessage "RODS_CONNECT" (Some (StartupPack user zone)) "" None
    unset_int_info.

Definition _connect : M unit :=
  host <- gets host ;;
  port <- gets port ;;
  match network host port with
  | None => raise (Exception "Could not connect to specified host and port")
  | Some replies =>
      modify (fun s => set_socket s (Some (mkSocket [] replies))) ;;
      user <- gets user ;;
      zone <- gets zone ;;
      _send (startup_message user zone) ;;
      version_msg <- _recv ;;
      ret tt
  end.

Definition configure (host : string) (port : Z) (user zone password : string)
    : M unit :=
  modify (fun s =>
            mkSession host port user zone password (socket s)
              (authenticated s)) ;;
  _connect.

(** [__init__], on the object being built; its arguments, when there
    are any, are handed to [configure]. *)
Definition __init__ (args : option (string * Z * string * string * string))
    : M unit :=
  modify (fun s => set_authenticated (set_socket s None) false) ;;
  match args with
  | Some (host, port, user, zone, password) =>
      configure host port user zone password
  | None => ret tt
  end.

End Lifecycle.

(** An object before [__init__] has run: no attribute is set yet. *)
Definition blank : iRODSSession := mkSession "" 0 "" "" "" None false.

(** A network with one server, which accepts the connection and sends
    the replies given. *)
Definition one_server (host : string) (port : Z) (replies : list iRODSMessage)
    : Network :=
  fun h p =>
    if String.eqb h host && (p =? port) then Some replies else None.

(** Whether a string holds a slash. *)
Fixpoint has_slash (p : string) : bool :=
  match p with
  | EmptyString => false
  | String c rest => is_slash c || has_slash rest
  end.

(** * Properties *)

Section Properties.

Context {imports : Imports}.

(** ** One send, one receive *)

Lemma inbox_connected (s : iRODSSession) (m : iRODSMessage)
    (rest : list iRODSMessage) :
  inbox s = m :: rest -> exists k, socket s = Some k /\ incoming k = m :: rest.
Proof.
  unfold inbox. destruct (socket s) as [k|]; intros H.
  - exists k. split; [reflexivity | exact H].
  - discriminate H.
Qed.

Lemma send_connected (s : iRODSSession) (m : iRODSMessage) :
  socket s <> None -> _send m s = (inr tt, push s m).
Proof.
  intros H. unfold push, _send. destruct (socket s); [reflexivity | congruence].
Qed.

Lemma wire_push (s : iRODSSession) (m : iRODSMessage) :
  socket s <> None -> wire (push s m) = wire s ++ [(authenticated s, m)].
Proof.
  intros H. unfold push, _send, wire.
  destruct (socket s); [reflexivity | congruence].
Qed.

Lemma inbox_push (s : iRODSSession) (m : iRODSMessage) :
  inbox (push s m) = inbox s.
Proof.
  unfold push, _send, inbox.
  destruct (socket s) eqn:E; simpl; rewrite ?E; reflexivity.
Qed.

Lemma authenticated_push (s : iRODSSession) (m : iRODSMessage) :
  authenticated (push s m) = authenticated s.
Proof. unfold push, _send. destruct (socket s); reflexivity. Qed.

Lemma socket_push (s : iRODSSession) (m : iRODSMessage) :
  socket s <> None -> socket (push s m) <> None.
Proof.
  unfold push, _send. destruct (socket s) eqn:E; simpl; rewrite ?E; congruence.
Qed.

Lemma recv_next (s : iRODSSession) (m : iRODSMessage)
    (rest : list iRODSMessage) :
  inbox s = m :: rest -> iRODSMessage_recv s = (inr m, pop s).
Proof.
  intros H. destruct (inbox_connected _ _ _ H) as [k [Hk Hin]].
  unfold pop, iRODSMessage_recv. rewrite Hk, Hin. reflexivity.
Qed.

Lemma inbox_pop (s : iRODSSession) (m : iRODSMessage)
    (rest : list iRODSMessage) :
  inbox s = m :: rest -> inbox (pop s) = rest.
Proof.
  intros H. destruct (inbox_connected _ _ _ H) as [k [Hk Hin]].
  unfold pop, iRODSMessage_recv, inbox. rewrite Hk, Hin. reflexivity.
Qed.

Lemma wire_pop (s : iRODSSession) : wire (pop s) = wire s.
Proof.
  unfold pop, iRODSMessage_recv, wire.
  destruct (socket s) as [k|] eqn:E; [destruct (incoming k) |];
    simpl; rewrite ?E; reflexivity.
Qed.

Lemma authenticated_pop (s : iRODSSession) :
  authenticated (pop s) = authenticated s.
Proof.
  unfold pop, iRODSMessage_recv.
  destruct (socket s) as [k|]; [destruct (incoming k) |]; reflexivity.
Qed.

Lemma socket_pop (s : iRODSSession) :
  socket s <> None -> socket (pop s) <> None.
Proof.
  unfold pop, iRODSMessage_recv.
  destruct (socket s) as [k|] eqn:E; [destruct (incoming k) |];
    simpl; rewrite ?E; congruence.
Qed.

Lemma inbox_deliver (s : iRODSSession) (replies : list iRODSMessage) :
  socket s <> None -> inbox (deliver s replies) = replies.
Proof.
  unfold deliver, inbox. destruct (socket s); [reflexivity | congruence].
Qed.

Lemma recv_negative (s : iRODSSession) (m : iRODSMessage)
    (rest : list iRODSMessage) :
  inbox s = m :: rest -> int_info m < 0 ->
  _recv s = (inl (get_exception_by_code (int_info m)), pop s).
Proof.
  intros H Hneg. unfold _recv, bind. rewrite (recv_next _ _ _ H).
  apply Z.ltb_lt in Hneg. rewrite Hneg. reflexivity.
Qed.

Lemma recv_nonnegative (s : iRODSSession) (m : iRODSMessage)
    (rest : list iRODSMessage) :
  inbox s = m :: rest -> 0 <= int_info m -> _recv s = (inr m, pop s).
Proof.
  intros H Hpos. unfold _recv, bind. rewrite (recv_next _ _ _ H).
  apply Z.ltb_ge in Hpos. rewrite Hpos. reflexivity.
Qed.

(** C3. Whatever envelope is next on the socket, [_recv] looks at its
    status field only: with a negative status it raises the exception
    the table gives for that code, and this for every type tag, body,
    error segment and payload the envelope may carry; with a status that
    is not negative it hands the envelope over unchanged. In both cases
    the envelope is taken off the socket. *)
Theorem recv_checks_status_first (s : iRODSSession) (m : iRODSMessage)
    (rest : list iRODSMessage) :
  inbox s = m :: rest ->
  (int_info m < 0 ->
   _recv s = (inl (get_exception_by_code (int_info m)), pop s)
   /\ forall tag body err payload,
        fst (_recv (deliver s (mkMessage tag body err payload (int_info m)
                                 :: rest)))
        = inl (get_exception_by_code (int_info m)))
  /\ (0 <= int_info m -> _recv s = (inr m, pop s))
  /\ inbox (pop s) = rest.
Proof.
  intros H. split; [| split].
  - intros Hneg. split.
    + exact (recv_negative _ _ _ H Hneg).
    + intros tag body err payload.
      destruct (inbox_connected _ _ _ H) as [k [Hk _]].
      assert (Hin : inbox (deliver s (mkMessage tag body err payload
                                        (int_info m) :: rest))
                    = mkMessage tag body err payload (int_info m) :: rest).
      { apply inbox_deliver. congruence. }
      rewrite (recv_negative _ _ _ Hin Hneg). reflexivity.
  - intros Hpos. exact (recv_nonnegative _ _ _ H Hpos).
  - exact (inbox_pop _ _ _ H).
Qed.


(** ** The password digest *)

Lemma struct_pack_s_length (n : nat) (s : bytes) :
  List.length (struct_pack_s n s) = n.
Proof.
  unfold struct_pack_s.
  rewrite length_app, length_firstn, repeat_length. lia.
Qed.

Lemma struct_pack_s_short (n : nat) (s : bytes) :
  (List.length s <= n)%nat ->
  struct_pack_s n s = s ++ repeat x00 (n - List.length s).
Proof.
  intros H. unfold struct_pack_s. rewrite firstn_all2 by exact H. reflexivity.
Qed.

Lemma struct_pack_s_long (n : nat) (s : bytes) :
  (n <= List.length s)%nat -> struct_pack_s n s = firstn n s.
Proof.
  intros H. unfold struct_pack_s.
  replace (n - List.length s)%nat with 0%nat by lia.
  simpl. apply app_nil_r.
Qed.

Lemma le_bytes_length (n : nat) (x : Z) : List.length (MD5.le_bytes n x) = n.
Proof. unfold MD5.le_bytes. rewrite length_map, length_seq. reflexivity. Qed.

Lemma digest_length (message : bytes) : List.length (MD5.digest message) = 16%nat.
Proof.
  unfold MD5.digest.
  destruct (fold_left MD5.block _ MD5.init) as [[[a b] c] d].
  rewrite !length_app, !le_bytes_length. reflexivity.
Qed.

Lemma replace_x00_x01_length (s : bytes) :
  List.length (replace_x00_x01 s) = List.length s.
Proof. unfold replace_x00_x01. apply length_map. Qed.

Lemma replace_x00_x01_no_null (s : bytes) : ~ In x00 (replace_x00_x01 s).
Proof.
  unfold replace_x00_x01. intros H. apply in_map_iff in H.
  destruct H as [b [Hb _]].
  destruct (Byte.eqb b x00) eqn:E.
  - discriminate Hb.
  - subst b. discriminate E.
Qed.

Lemma replace_x00_x01_nth (s : bytes) (i : nat) (b : byte) :
  nth_error s i = Some b ->
  nth_error (replace_x00_x01 s) i = Some (if Byte.eqb b x00 then x01 else b).
Proof.
  intros H. unfold replace_x00_x01. rewrite nth_error_map, H. reflexivity.
Qed.

Lemma encoded_pwd_eq (challenge : bytes) (password : string) :
  encoded_pwd challenge password
  = replace_x00_x01
      (MD5.digest
         (challenge
          ++ struct_pack_s MAX_PASSWORD_LENGTH (list_byte_of_string password))).
Proof. reflexivity. Qed.

(** ** The login *)

Lemma password_push (s : iRODSSession) (m : iRODSMessage) :
  password (push s m) = password s /\ user (push s m) = user s.
Proof. unfold push, _send. destruct (socket s); split; reflexivity. Qed.

Lemma password_pop (s : iRODSSession) :
  password (pop s) = password s /\ user (pop s) = user s.
Proof.
  unfold pop, iRODSMessage_recv.
  destruct (socket s) as [k|]; [destruct (incoming k) |]; split; reflexivity.
Qed.

Lemma inbox_socket (s : iRODSSession) (m : iRODSMessage)
    (rest : list iRODSMessage) :
  inbox s = m :: rest -> socket s <> None.
Proof.
  intros H. destruct (inbox_connected _ _ _ H) as [k [Hk _]]. congruence.
Qed.

(** With a challenge waiting on the socket, [_login] gets as far as the
    final envelope. *)
Lemma login_challenged (s : iRODSSession) (c : iRODSMessage)
    (rest : list iRODSMessage) (body : authRequestOut) :
  inbox s = c :: rest -> 0 <= int_info c ->
  msg c = Some (authRequestOut_PI body) ->
  _login s = conclude_login (challenged s (challenge body))
  /\ inbox (challenged s (challenge body)) = rest.
Proof.
  intros Hin Hpos Hmsg.
  assert (Hs : socket s <> None) by exact (inbox_socket _ _ _ Hin).
  assert (Hin1 : inbox (push s auth_req) = c :: rest)
    by (rewrite inbox_push; exact Hin).
  split.
  - unfold _login, bind.
    rewrite (send_connected _ _ Hs).
    rewrite (recv_nonnegative _ _ _ Hin1 Hpos).
    unfold get_main_message. rewrite Hmsg.
    cbv [unpack Unpack_authRequestOut ret gets].
    destruct (password_pop (push s auth_req)) as [Hp Hu].
    destruct (password_push s auth_req) as [Hp' Hu'].
    rewrite Hp, Hu, Hp', Hu'.
    rewrite send_connected
      by (apply socket_pop, socket_push; exact Hs).
    reflexivity.
  - unfold challenged. rewrite inbox_push.
    exact (inbox_pop _ _ _ Hin1).
Qed.

Lemma conclude_login_rejected (s : iRODSSession) (f : iRODSMessage)
    (rest : list iRODSMessage) :
  inbox s = f :: rest -> int_info f < 0 ->
  conclude_login s = (inl (get_exception_by_code (int_info f)), pop s).
Proof.
  intros Hin Hneg. unfold conclude_login, bind.
  rewrite (recv_negative _ _ _ Hin Hneg). reflexivity.
Qed.

Lemma conclude_login_error (s : iRODSSession) (f : iRODSMessage)
    (rest : list iRODSMessage) :
  inbox s = f :: rest -> 0 <= int_info f -> error f <> "" ->
  conclude_login s = (inl (Exception "Unsuccessful login attempt"), pop s).
Proof.
  intros Hin Hpos Herr. unfold conclude_login, bind.
  rewrite (recv_nonnegative _ _ _ Hin Hpos).
  apply String.eqb_neq in Herr. rewrite Herr. reflexivity.
Qed.

Lemma conclude_login_accepted (s : iRODSSession) (f : iRODSMessage)
    (rest : list iRODSMessage) :
  inbox s = f :: rest -> 0 <= int_info f -> error f = "" ->
  conclude_login s = (inr tt, set_authenticated (pop s) true).
Proof.
  intros Hin Hpos Herr. unfold conclude_login, bind.
  rewrite (recv_nonnegative _ _ _ Hin Hpos).
  rewrite Herr. reflexivity.
Qed.

End Properties.

(** ** Relations every method respects *)

Section Respects.

Variable R : iRODSSession -> iRODSSession -> Prop.
Hypothesis R_refl : forall s, R s s.
Hypothesis R_trans : forall s t u, R s t -> R t u -> R s u.

Lemma respects_ret {A : Type} (a : A) : respects R (ret a).
Proof. intros s. apply R_refl. Qed.

Lemma respects_raise {A : Type} (e : exn) : respects R (@raise A e).
Proof. intros s. apply R_refl. Qed.

Lemma respects_gets {A : Type} (f : iRODSSession -> A) : respects R (gets f).
Proof. intros s. apply R_refl. Qed.

Lemma respects_lift {A : Type} (r : exn + A) : respects R (lift r).
Proof. intros s. apply R_refl. Qed.

Lemma respects_bind {A B : Type} (m : M A) (f : A -> M B) :
  respects R m -> (forall a, respects R (f a)) -> respects R (bind m f).
Proof.
  intros Hm Hf s. unfold bind.
  specialize (Hm s). destruct (m s) as [[e | a] s1]; simpl in *.
  - exact Hm.
  - apply R_trans with s1; [exact Hm | apply Hf].
Qed.

Lemma respects_try_except {A : Type} (body handler : M A)
    (catches : exn -> bool) :
  respects R body -> respects R handler ->
  respects R (try_except body catches handler).
Proof.
  intros Hb Hh s. unfold try_except.
  specialize (Hb s). destruct (body s) as [[e | a] s1]; simpl in *.
  - destruct (catches e); simpl.
    + apply R_trans with s1; [exact Hb | apply Hh].
    + exact Hb.
  - exact Hb.
Qed.

Lemma respects_for_each {A B : Type} (f : A -> M B) (l : list A) :
  (forall a, respects R (f a)) -> respects R (for_each f l).
Proof.
  intros Hf. induction l as [| a rest IH]; simpl.
  - apply respects_ret.
  - apply respects_bind; [apply Hf | intros b].
    apply respects_bind; [exact IH | intros bs]. apply respects_ret.
Qed.

End Respects.

Ltac respects_tac :=
  repeat
    (cbv zeta;
     lazymatch goal with
     | |- respects _ (ret _) => apply respects_ret; assumption
     | |- respects _ (raise _) => apply respects_raise; assumption
     | |- respects _ (gets _) => apply respects_gets; assumption
     | |- respects _ (lift _) => apply respects_lift; assumption
     | |- respects _ (bind _ _) =>
         apply respects_bind; [assumption | | intro]
     | |- respects _ (try_except _ _ _) =>
         apply respects_try_except; [assumption | | ]
     | |- respects _ (for_each _ _) =>
         apply respects_for_each; [assumption | assumption | intro]
     | |- respects _ (if ?b then _ else _) => destruct b
     | |- respects _ (match ?x with _ => _ end) => destruct x
     | |- respects _ _ => solve [auto with respects]
     end).

Create HintDb respects.

Section Methods.

Context {imports : Imports}.

Variable R : iRODSSession -> iRODSSession -> Prop.
Hypothesis R_refl : forall s, R s s.
Hypothesis R_trans : forall s t u, R s t -> R t u -> R s u.
Hypothesis R_send : forall m, respects R (_send m).
Hypothesis R_recv : respects R iRODSMessage_recv.
Hypothesis R_login : respects R (modify (fun s => set_authenticated s true)).

Lemma respects_get_main_message (A : Type) `{Unpack A} (m : iRODSMessage) :
  respects R (get_main_message A m).
Proof. unfold get_main_message. respects_tac. Qed.

Lemma respects_row_get (row : Row) (c : Column) : respects R (row_get row c).
Proof. unfold row_get. respects_tac. Qed.

Lemma respects_recv : respects R _recv.
Proof. unfold _recv. respects_tac. Qed.

#[local] Hint Resolve respects_get_main_message respects_row_get
  respects_recv : respects.

Lemma respects_login : respects R _login.
Proof. unfold _login. respects_tac. Qed.

#[local] Hint Resolve respects_login : respects.

Lemma respects_ensure_authenticated : respects R ensure_authenticated.
Proof. unfold ensure_authenticated. respects_tac. Qed.

#[local] Hint Resolve respects_ensure_authenticated : respects.

Lemma respects_execute_query (q : Query) : respects R (execute_query q).
Proof. unfold execute_query. respects_tac. Qed.

#[local] Hint Resolve respects_execute_query : respects.

Lemma respects_get_collection (path : string) :
  respects R (get_collection path).
Proof. unfold get_collection. respects_tac. Qed.

#[local] Hint Resolve respects_get_collection : respects.

Lemma respects_get_data_object (path : string) :
  respects R (get_data_object path).
Proof. unfold get_data_object, collection_id, all. respects_tac. Qed.

Lemma respects_close_file (desc : Z) : respects R (close_file desc).
Proof. unfold close_file. respects_tac. Qed.

#[local] Hint Resolve respects_get_data_object respects_close_file : respects.

Lemma respects_create_data_object (path : string) :
  respects R (create_data_object path).
Proof. unfold create_data_object. respects_tac. Qed.

Lemma respects_open_file (path : string) (mode : Z) :
  respects R (open_file path mode).
Proof. unfold open_file. respects_tac. Qed.

Lemma respects_read_file (desc size : Z) : respects R (read_file desc size).
Proof. unfold read_file. respects_tac. Qed.

Lemma respects_write_file (desc : Z) (data : bytes) :
  respects R (write_file desc data).
Proof. unfold write_file. respects_tac. Qed.

Lemma respects_seek_file (desc offset whence : Z) :
  respects R (seek_file desc offset whence).
Proof. unfold seek_file. respects_tac. Qed.

Lemma respects_unlink_data_object (path : string) :
  respects R (unlink_data_object path).
Proof. unfold unlink_data_object. respects_tac. Qed.

Lemma respects_get_meta (model_cls : Model) (path : string) :
  respects R (get_meta model_cls path).
Proof. unfold get_meta, all. respects_tac. Qed.

Lemma respects_add_meta (model_cls : Model) (path : string)
    (meta : iRODSMeta) :
  respects R (add_meta model_cls path meta).
Proof. unfold add_meta. respects_tac. Qed.

Lemma respects_remove_meta (model_cls : Model) (path : string)
    (meta : iRODSMeta) :
  respects R (remove_meta model_cls path meta).
Proof. unfold remove_meta. respects_tac. Qed.

Lemma respects_copy_meta (src_cls dest_cls : Model) (src dest : string) :
  respects R (copy_meta src_cls dest_cls src dest).
Proof. unfold copy_meta. respects_tac. Qed.

Lemma snd_outcome {A : Type} (m : M A) (s : iRODSSession) :
  snd (outcome m s) = snd (m s).
Proof. unfold outcome. destruct (m s) as [[e | a] s1]; reflexivity. Qed.

Lemma respects_run (c : Call) (s : iRODSSession) : R s (snd (run c s)).
Proof.
  destruct c; simpl; rewrite snd_outcome.
  - apply respects_get_collection.
  - apply respects_get_data_object.
  - apply respects_create_data_object.
  - apply respects_open_file.
  - apply respects_read_file.
  - apply respects_write_file.
  - apply respects_seek_file.
  - apply respects_close_file.
  - apply respects_unlink_data_object.
  - apply respects_execute_query.
  - apply respects_get_meta.
  - apply respects_add_meta.
  - apply respects_remove_meta.
  - apply respects_copy_meta.
Qed.

End Methods.

(** ** The log of sent messages *)

Section Log.

Context {imports : Imports}.

Lemma appended_refl (P : bool * iRODSMessage -> Prop) (s : iRODSSession) :
  appended P s s.
Proof. exists []. split; [symmetry; apply app_nil_r | constructor]. Qed.

Lemma appended_trans (P : bool * iRODSMessage -> Prop)
    (s t u : iRODSSession) :
  appended P s t -> appended P t u -> appended P s u.
Proof.
  intros [l1 [H1 F1]] [l2 [H2 F2]]. exists (l1 ++ l2). split.
  - rewrite H2, H1. symmetry. apply app_assoc.
  - apply Forall_app. split; assumption.
Qed.

Lemma wire_send (m : iRODSMessage) (s : iRODSSession) :
  wire (snd (_send m s)) = wire s
  \/ wire (snd (_send m s)) = wire s ++ [(authenticated s, m)].
Proof.
  unfold _send, wire. destruct (socket s) eqn:E; simpl; rewrite ?E; auto.
Qed.

Lemma appended_send (P : bool * iRODSMessage -> Prop) (m : iRODSMessage)
    (s : iRODSSession) :
  P (authenticated s, m) -> appended P s (snd (_send m s)).
Proof.
  intros HP. destruct (wire_send m s) as [H | H].
  - exists []. split; [rewrite H; symmetry; apply app_nil_r | constructor].
  - exists [(authenticated s, m)]. split; [exact H |].
    constructor; [exact HP | constructor].
Qed.

Lemma appended_recv (P : bool * iRODSMessage -> Prop) :
  respects (appended P) iRODSMessage_recv.
Proof.
  intros s. exists []. split; [| constructor].
  rewrite app_nil_r. exact (wire_pop s).
Qed.

Lemma appended_flag (P : bool * iRODSMessage -> Prop) :
  respects (appended P) (modify (fun s => set_authenticated s true)).
Proof. intros s. exists []. split; [symmetry; apply app_nil_r | constructor]. Qed.

Lemma authenticated_send (m : iRODSMessage) (s : iRODSSession) :
  authenticated (snd (_send m s)) = authenticated s.
Proof. unfold _send. destruct (socket s); reflexivity. Qed.

Lemma stays_authenticated_refl (s : iRODSSession) : stays_authenticated s s.
Proof. intros H. split; [exact H | apply appended_refl]. Qed.

Lemma stays_authenticated_trans (s t u : iRODSSession) :
  stays_authenticated s t -> stays_authenticated t u ->
  stays_authenticated s u.
Proof.
  intros H1 H2 Hs. destruct (H1 Hs) as [Ht A1]. destruct (H2 Ht) as [Hu A2].
  split; [exact Hu | exact (appended_trans _ _ _ _ A1 A2)].
Qed.

Lemma stays_authenticated_send (m : iRODSMessage) :
  respects stays_authenticated (_send m).
Proof.
  intros s Hs. split.
  - rewrite authenticated_send. exact Hs.
  - apply appended_send. exact Hs.
Qed.

Lemma stays_authenticated_recv : respects stays_authenticated iRODSMessage_recv.
Proof.
  intros s Hs. split.
  - change (authenticated (pop s) = true). rewrite authenticated_pop. exact Hs.
  - apply appended_recv.
Qed.

Lemma stays_authenticated_flag :
  respects stays_authenticated (modify (fun s => set_authenticated s true)).
Proof. intros s Hs. split; [reflexivity | apply appended_flag]. Qed.

(** Every public method only adds to the log. *)
Lemma run_grows (c : Call) (s : iRODSSession) : grows s (snd (run c s)).
Proof.
  apply (respects_run grows).
  - apply appended_refl.
  - apply appended_trans.
  - intros m t. apply appended_send. exact I.
  - apply appended_recv.
  - apply appended_flag.
Qed.

(** A session that has logged in stays logged in through every public
    method, and marks all it sends. *)
Lemma run_stays_authenticated (c : Call) (s : iRODSSession) :
  stays_authenticated s (snd (run c s)).
Proof.
  apply (respects_run stays_authenticated).
  - apply stays_authenticated_refl.
  - apply stays_authenticated_trans.
  - apply stays_authenticated_send.
  - exact stays_authenticated_recv.
  - exact stays_authenticated_flag.
Qed.


End Log.

(** ** The lazy login *)

Section Login.

Context {imports : Imports}.

Lemma recv_empty (s : iRODSSession) :
  inbox s = [] -> exists e, _recv s = (inl e, s).
Proof.
  unfold inbox, _recv, bind, iRODSMessage_recv.
  destruct (socket s) as [k |].
  - intros H. rewrite H. exists socket_error. reflexivity.
  - intros _. exists AttributeError. reflexivity.
Qed.

Lemma authenticated_challenged (s : iRODSSession) (ch : bytes) :
  authenticated (challenged s ch) = authenticated s.
Proof.
  unfold challenged.
  rewrite authenticated_push, authenticated_pop, authenticated_push.
  reflexivity.
Qed.

(** [conclude_login] sets the flag exactly when the final envelope has a
    status that is not negative and no error segment; otherwise it raises
    and leaves the flag as it was. *)
Lemma conclude_login_outcome (t : iRODSSession) :
  (exists f rest,
      inbox t = f :: rest /\ 0 <= int_info f /\ error f = ""
      /\ conclude_login t = (inr tt, set_authenticated (pop t) true))
  \/ (exists e t',
        conclude_login t = (inl e, t')
        /\ authenticated t' = authenticated t).
Proof.
  destruct (inbox t) as [| f rest] eqn:Hin.
  - right. destruct (recv_empty t Hin) as [e He].
    exists e, t. split; [| reflexivity].
    unfold conclude_login, bind. rewrite He. reflexivity.
  - destruct (Z.lt_ge_cases (int_info f) 0) as [Hneg | Hpos].
    + right. exists (get_exception_by_code (int_info f)), (pop t).
      split; [exact (conclude_login_rejected _ _ _ Hin Hneg) |].
      apply authenticated_pop.
    + destruct (String.eqb_spec (error f) "") as [Herr | Herr].
      * left. exists f, rest. repeat split; try assumption.
        exact (conclude_login_accepted _ _ _ Hin Hpos Herr).
      * right. exists (Exception "Unsuccessful login attempt"), (pop t).
        split; [exact (conclude_login_error _ _ _ Hin Hpos Herr) |].
        apply authenticated_pop.
Qed.

(** The same for the whole of [_login]. *)
Lemma login_outcome (s : iRODSSession) :
  (exists c f rest body,
      inbox s = c :: f :: rest /\ 0 <= int_info c
      /\ msg c = Some (authRequestOut_PI body)
      /\ 0 <= int_info f /\ error f = ""
      /\ _login s
         = (inr tt,
            set_authenticated (pop (challenged s (challenge body))) true))
  \/ (exists e s', _login s = (inl e, s')
                   /\ authenticated s' = authenticated s).
Proof.
  destruct (socket s) as [k |] eqn:Hk.
  2:{ right. exists AttributeError, s. split; [| reflexivity].
      unfold _login, bind, _send. rewrite Hk. reflexivity. }
  assert (Hs : socket s <> None) by congruence.
  destruct (inbox s) as [| c rest] eqn:Hin.
  { right.
    assert (Hin1 : inbox (push s auth_req) = []) by (rewrite inbox_push; exact Hin).
    destruct (recv_empty _ Hin1) as [e He].
    exists e, (push s auth_req). split; [| apply authenticated_push].
    unfold _login, bind. rewrite (send_connected _ _ Hs), He. reflexivity. }
  assert (Hin1 : inbox (push s auth_req) = c :: rest)
    by (rewrite inbox_push; exact Hin).
  destruct (Z.lt_ge_cases (int_info c) 0) as [Hneg | Hpos].
  { right. exists (get_exception_by_code (int_info c)), (pop (push s auth_req)).
    split; [| rewrite authenticated_pop; apply authenticated_push].
    unfold _login, bind.
    rewrite (send_connected _ _ Hs), (recv_negative _ _ _ Hin1 Hneg).
    reflexivity. }
  assert (Hparse : forall b, msg c = b ->
            (forall body, b <> Some (authRequestOut_PI body)) ->
            _login s = (inl ParseError, pop (push s auth_req))).
  { intros b Hb Hno. unfold _login, bind.
    rewrite (send_connected _ _ Hs), (recv_nonnegative _ _ _ Hin1 Hpos).
    unfold get_main_message. rewrite Hb.
    destruct b as [[] |]; try reflexivity. exfalso. eapply Hno. reflexivity. }
  destruct (msg c) as [b |] eqn:Hmsg.
  2:{ right. exists ParseError, (pop (push s auth_req)).
      split; [| rewrite authenticated_pop; apply authenticated_push].
      apply (Hparse None eq_refl). intros body. discriminate. }
  destruct b as [ | body | | | | | | | | | | ];
    try (right; exists ParseError, (pop (push s auth_req));
         split; [| rewrite authenticated_pop; apply authenticated_push];
         eapply Hparse; [reflexivity | intros body'; discriminate]).
  destruct (login_challenged _ _ _ _ Hin Hpos Hmsg) as [Hlogin Hrest].
  destruct (conclude_login_outcome (challenged s (challenge body)))
    as [[f [rest' [Hf [Hfpos [Herr Hrun]]]]] | [e [t' [Hrun Hflag]]]].
  - left. exists c, f, rest', body.
    assert (Hin' : inbox s = c :: f :: rest')
      by (rewrite Hin, <- Hrest, Hf; reflexivity).
    split; [rewrite <- Hin; exact Hin' |]. split; [exact Hpos |]. split; [exact Hmsg |].
    split; [exact Hfpos |]. split; [exact Herr |].
    rewrite Hlogin. exact Hrun.
  - right. exists e, t'. split; [rewrite Hlogin; exact Hrun |].
    rewrite Hflag. apply authenticated_challenged.
Qed.

Lemma login_success (s s' : iRODSSession) (u : unit) :
  _login s = (inr u, s') -> authenticated s' = true.
Proof.
  intros H.
  destruct (login_outcome s)
    as [[c [f [rest [body [_ [_ [_ [_ [_ Hrun]]]]]]]]] | [e [t [Hrun _]]]].
  - rewrite Hrun in H. inversion H. reflexivity.
  - rewrite Hrun in H. discriminate H.
Qed.

Lemma ensure_authenticated_done (s : iRODSSession) :
  authenticated s = true -> ensure_authenticated s = (inr tt, s).
Proof.
  intros H. unfold ensure_authenticated, bind, gets. rewrite H. reflexivity.
Qed.

Lemma ensure_authenticated_login (s : iRODSSession) :
  authenticated s = false -> ensure_authenticated s = _login s.
Proof.
  intros H. unfold ensure_authenticated, bind, gets. rewrite H. reflexivity.
Qed.

Lemma ensure_authenticated_success (s s' : iRODSSession) (u : unit) :
  ensure_authenticated s = (inr u, s') -> authenticated s' = true.
Proof.
  intros H. destruct (authenticated s) eqn:Ha.
  - rewrite (ensure_authenticated_done _ Ha) in H. inversion H. subst. exact Ha.
  - rewrite (ensure_authenticated_login _ Ha) in H. exact (login_success _ _ _ H).
Qed.

(** A method that starts with the guard, called on a session that has
    not logged in, is the login followed by the method. *)
Lemma guard_unauthenticated {A : Type} (k : M A) (s : iRODSSession) :
  authenticated s = false ->
  bind ensure_authenticated (fun _ => k) s
  = bind _login (fun _ => bind ensure_authenticated (fun _ => k)) s.
Proof.
  intros H. unfold bind. rewrite (ensure_authenticated_login _ H).
  destruct (_login s) as [[e | u] s1] eqn:E; [reflexivity |].
  rewrite (ensure_authenticated_done _ (login_success _ _ _ E)).
  reflexivity.
Qed.

(** The guard is idempotent. *)
Lemma guard_twice {A : Type} (k : M A) (s : iRODSSession) :
  bind ensure_authenticated (fun _ => bind ensure_authenticated (fun _ => k)) s
  = bind ensure_authenticated (fun _ => k) s.
Proof.
  unfold bind.
  destruct (ensure_authenticated s) as [[e | u] s1] eqn:E; [reflexivity |].
  rewrite (ensure_authenticated_done _ (ensure_authenticated_success _ _ _ E)).
  reflexivity.
Qed.

Lemma run_guarded (c : Call) (s : iRODSSession) :
  guarded c = true -> authenticated s = false ->
  run c s
  = match _login s with
    | (inl e, s1) => (Some e, s1)
    | (inr _, s1) => run c s1
    end.
Proof.
  intros G H.
  destruct c; try discriminate G; simpl; unfold outcome;
    unfold get_collection, get_data_object, create_data_object, open_file,
      read_file, write_file, seek_file, close_file, unlink_data_object,
      execute_query;
    rewrite (guard_unauthenticated _ s H); unfold bind at 1;
    destruct (_login s) as [[e | u] s1]; reflexivity.
Qed.

End Login.

(** ** No privileged request before the login *)

Section Guard.

Context {imports : Imports}.







(** On a connected session the login starts by sending the
    authentication request. *)
Lemma login_first_message (s : iRODSSession) :
  socket s <> None ->
  exists tail,
    wire (snd (_login s)) = wire s ++ (authenticated s, auth_req) :: tail.
Proof.
  intros Hs.
  assert (Hrefl := appended_refl (fun _ => True)).
  assert (Htrans := appended_trans (fun _ => True)).
  assert (Hsend : forall m, respects grows (_send m))
    by (intros m t; apply appended_send; exact I).
  assert (Hrecv := appended_recv (fun _ => True)).
  assert (Hflag := appended_flag (fun _ => True)).
  fold grows in Hrefl, Htrans, Hrecv, Hflag.
  assert (Hrecv' : respects grows _recv)
    by (apply respects_recv; assumption).
  assert (Hmain : forall c, respects grows (get_main_message authRequestOut c))
    by (intros c; apply respects_get_main_message; assumption).
  assert (Hrest : grows (push s auth_req) (snd (_login s))).
  { unfold _login. unfold bind at 1. rewrite (send_connected _ _ Hs).
    generalize (push s auth_req).
    match goal with
    | |- forall t, grows t (snd (?m t)) => change (respects grows m)
    end.
    respects_tac. }
  destruct Hrest as [tail [Hw _]]. exists tail.
  rewrite Hw, (wire_push _ _ Hs), <- app_assoc. reflexivity.
Qed.

(** A method that starts with the guard, called on a connected session
    that has not logged in, first sends the authentication request. *)
Lemma guarded_first_message (c : Call) (s : iRODSSession) :
  guarded c = true -> socket s <> None -> authenticated s = false ->
  exists tail, wire (snd (run c s)) = wire s ++ (false, auth_req) :: tail.
Proof.
  intros G Hs Ha. rewrite (run_guarded c s G Ha).
  destruct (login_first_message s Hs) as [tail Hw]. rewrite Ha in Hw.
  destruct (_login s) as [[e | u] s1] eqn:E; simpl in *.
  - exists tail. exact Hw.
  - destruct (run_grows c s1) as [tail' [Hw' _]].
    exists (tail ++ tail'). rewrite Hw', Hw, <- app_assoc. reflexivity.
Qed.

End Guard.

(** * The claims *)

Section Claims.

Context {imports : Imports}.

(** ** Queries *)

Lemma execute_query_no_rows (q : Query) (s : iRODSSession) (m : iRODSMessage)
    (rest : list iRODSMessage) :
  authenticated s = true -> inbox s = m :: rest -> int_info m < 0 ->
  get_exception_by_code (int_info m) = CAT_NO_ROWS_FOUND ->
  execute_query q s
  = (inr (ResultSet_of (empty_gen_query_out (columns q))),
     pop (push s (query_request q))).
Proof.
  intros Ha Hin Hneg Hcode.
  assert (Hs : socket s <> None) by exact (inbox_socket _ _ _ Hin).
  assert (Hin1 : inbox (push s (query_request q)) = m :: rest)
    by (rewrite inbox_push; exact Hin).
  unfold execute_query, bind, try_except.
  rewrite (ensure_authenticated_done _ Ha).
  fold (query_request q). rewrite (send_connected _ _ Hs).
  rewrite (recv_negative _ _ _ Hin1 Hneg), Hcode. reflexivity.
Qed.

Lemma execute_query_error (q : Query) (s : iRODSSession) (m : iRODSMessage)
    (rest : list iRODSMessage) :
  authenticated s = true -> inbox s = m :: rest -> int_info m < 0 ->
  get_exception_by_code (int_info m) <> CAT_NO_ROWS_FOUND ->
  execute_query q s
  = (inl (get_exception_by_code (int_info m)), pop (push s (query_request q))).
Proof.
  intros Ha Hin Hneg Hcode.
  assert (Hs : socket s <> None) by exact (inbox_socket _ _ _ Hin).
  assert (Hin1 : inbox (push s (query_request q)) = m :: rest)
    by (rewrite inbox_push; exact Hin).
  unfold execute_query, bind, try_except.
  rewrite (ensure_authenticated_done _ Ha).
  fold (query_request q). rewrite (send_connected _ _ Hs).
  rewrite (recv_negative _ _ _ Hin1 Hneg).
  destruct (get_exception_by_code (int_info m)); try reflexivity.
  congruence.
Qed.

Lemma execute_query_table (q : Query) (s : iRODSSession) (m : iRODSMessage)
    (rest : list iRODSMessage) (raw : GenQueryOut) :
  authenticated s = true -> inbox s = m :: rest -> 0 <= int_info m ->
  msg m = Some (GenQueryOut_PI raw) ->
  execute_query q s = (inr (ResultSet_of raw), pop (push s (query_request q))).
Proof.
  intros Ha Hin Hpos Hmsg.
  assert (Hs : socket s <> None) by exact (inbox_socket _ _ _ Hin).
  assert (Hin1 : inbox (push s (query_request q)) = m :: rest)
    by (rewrite inbox_push; exact Hin).
  unfold execute_query, bind, try_except.
  rewrite (ensure_authenticated_done _ Ha).
  fold (query_request q). rewrite (send_connected _ _ Hs).
  rewrite (recv_nonnegative _ _ _ Hin1 Hpos).
  unfold get_main_message. rewrite Hmsg. reflexivity.
Qed.

(** A query run on a session that still has to log in is the login
    followed by the query. *)
Lemma execute_query_after_guard (q : Query) (s0 s : iRODSSession) (u : unit) :
  ensure_authenticated s0 = (inr u, s) ->
  execute_query q s0 = execute_query q s /\ authenticated s = true.
Proof.
  intros H.
  assert (Ha : authenticated s = true)
    by exact (ensure_authenticated_success _ _ _ H).
  split; [| exact Ha].
  unfold execute_query, bind.
  rewrite H, (ensure_authenticated_done _ Ha). reflexivity.
Qed.

(** C2. Once the guard of [execute_query] has passed and the query is
    sent, the next envelope decides the outcome. With a negative status
    that the table maps to [CAT_NO_ROWS_FOUND], the result is the result
    set of the empty table over the columns of the query, of length 0,
    and nothing is raised. With a negative status mapped to any other
    exception, that exception is raised and there is no result set. With
    a status that is not negative and a table as body, the result is the
    result set of that table. *)
Theorem execute_query_outcomes (q : Query) (s0 s : iRODSSession)
    (m : iRODSMessage) (rest : list iRODSMessage) :
  ensure_authenticated s0 = (inr tt, s) -> inbox s = m :: rest ->
  let s' := pop (push s (query_request q)) in
  let empty := ResultSet_of (empty_gen_query_out (columns q)) in
  (int_info m < 0 ->
   get_exception_by_code (int_info m) = CAT_NO_ROWS_FOUND ->
   execute_query q s0 = (inr empty, s'))
  /\ length empty = 0 /\ result_columns empty = columns q
  /\ (int_info m < 0 ->
      get_exception_by_code (int_info m) <> CAT_NO_ROWS_FOUND ->
      execute_query q s0 = (inl (get_exception_by_code (int_info m)), s'))
  /\ (forall raw, 0 <= int_info m -> msg m = Some (GenQueryOut_PI raw) ->
      execute_query q s0 = (inr (ResultSet_of raw), s')).
Proof.
  intros Hguard Hin s' empty.
  destruct (execute_query_after_guard q _ _ _ Hguard) as [Heq Ha].
  rewrite Heq. repeat split.
  - intros Hneg Hcode. exact (execute_query_no_rows q _ _ _ Ha Hin Hneg Hcode).
  - intros Hneg Hcode. exact (execute_query_error q _ _ _ Ha Hin Hneg Hcode).
  - intros raw Hpos Hmsg. exact (execute_query_table q _ _ _ raw Ha Hin Hpos Hmsg).
Qed.

(** ** The password digest on the wire *)

Lemma wire_conclude_login (t : iRODSSession) :
  wire (snd (conclude_login t)) = wire t.
Proof.
  unfold conclude_login, _recv, bind.
  destruct (iRODSMessage_recv t) as [[e | m] t1] eqn:E.
  - change t1 with (snd (@inl exn iRODSMessage e, t1)). rewrite <- E.
    apply wire_pop.
  - assert (H1 : wire t1 = wire t).
    { change t1 with (snd (@inr exn iRODSMessage m, t1)). rewrite <- E.
      apply wire_pop. }
    destruct (int_info m <? 0); simpl; [exact H1 |].
    destruct (negb (String.eqb (error m) "")); simpl; exact H1.
Qed.

Lemma wire_challenged (s : iRODSSession) (ch : bytes) :
  socket s <> None ->
  wire (challenged s ch)
  = wire s
    ++ [(authenticated s, auth_req);
        (authenticated s, pwd_request (encoded_pwd ch (password s)) (user s))].
Proof.
  intros Hs. unfold challenged.
  rewrite wire_push by (apply socket_pop, socket_push; exact Hs).
  rewrite wire_pop, authenticated_pop, authenticated_push.
  rewrite (wire_push _ _ Hs), <- app_assoc. reflexivity.
Qed.

(** C4. The digest [_login] answers the challenge with: the password is
    brought to exactly [MAX_PASSWORD_LENGTH] bytes, filled up with null
    bytes when shorter and cut when longer; the challenge followed by
    that buffer is hashed with MD5 to 16 bytes; every null byte of the
    hash becomes the byte 1 and every other byte stays. The result is a
    function of the challenge and the password alone, and it is what the
    login sends, with the user name, in answer to the challenge. *)
Theorem login_digest (nonce : bytes) (secret : string) :
  let pwd := list_byte_of_string secret in
  let padded_pwd := struct_pack_s MAX_PASSWORD_LENGTH pwd in
  let hash := MD5.digest (nonce ++ padded_pwd) in
  List.length padded_pwd = MAX_PASSWORD_LENGTH
  /\ ((List.length pwd <= MAX_PASSWORD_LENGTH)%nat ->
      padded_pwd = pwd ++ repeat x00 (MAX_PASSWORD_LENGTH - List.length pwd))
  /\ ((MAX_PASSWORD_LENGTH <= List.length pwd)%nat ->
      padded_pwd = firstn MAX_PASSWORD_LENGTH pwd)
  /\ List.length hash = 16%nat
  /\ encoded_pwd nonce secret
     = map (fun b => if Byte.eqb b x00 then x01 else b) hash
  /\ List.length (encoded_pwd nonce secret) = 16%nat
  /\ ~ In x00 (encoded_pwd nonce secret)
  /\ (forall i b, nth_error hash i = Some b ->
      nth_error (encoded_pwd nonce secret) i
      = Some (if Byte.eqb b x00 then x01 else b))
  /\ (forall s c rest,
        inbox s = c :: rest -> 0 <= int_info c ->
        msg c = Some (authRequestOut_PI (mkAuthRequestOut nonce)) ->
        password s = secret ->
        wire (snd (_login s))
        = wire s
          ++ [(authenticated s, auth_req);
              (authenticated s,
               pwd_request (encoded_pwd nonce secret) (user s))]).
Proof.
  intros pwd padded_pwd hash.
  split; [apply struct_pack_s_length |].
  split; [apply struct_pack_s_short |].
  split; [apply struct_pack_s_long |].
  split; [apply digest_length |].
  split; [reflexivity |].
  split.
  { rewrite encoded_pwd_eq, replace_x00_x01_length. apply digest_length. }
  split; [rewrite encoded_pwd_eq; apply replace_x00_x01_no_null |].
  split.
  { intros i b H. rewrite encoded_pwd_eq. apply replace_x00_x01_nth. exact H. }
  intros s c rest Hin Hpos Hmsg Hpw.
  destruct (login_challenged _ _ _ _ Hin Hpos Hmsg) as [Hlogin _].
  rewrite Hlogin, wire_conclude_login. simpl challenge.
  rewrite wire_challenged by exact (inbox_socket _ _ _ Hin).
  rewrite Hpw. reflexivity.
Qed.

(** ** The resource type of a model class *)

Lemma resource_type_never_u (model_cls : Model) :
  _model_class_to_resource_type model_cls <> inr "u".
Proof. destruct model_cls; discriminate. Qed.

(** C8. [_model_class_to_resource_type] gives "d" for [DataObject], "c"
    for [Collection], "r" for [Resource] and "r" again for [User], so
    that every metadata method treats a user as a resource; the letter
    "u" is a key of both dispatch tables of [get_meta], where it selects
    [UserMeta] and the condition on [User.name], but the mapping gives
    it for no model class. *)
Theorem user_shares_resource_letter :
  _model_class_to_resource_type DataObject = inr "d"
  /\ _model_class_to_resource_type Collection = inr "c"
  /\ _model_class_to_resource_type Resource = inr "r"
  /\ _model_class_to_resource_type User = inr "r"
  /\ dict_get String.eqb meta_models "u" = inr UserMeta
  /\ (forall path,
        dict_get String.eqb (meta_conditions path) "u"
        = inr [col_eq (attr User "name") path])
  /\ (forall model_cls, _model_class_to_resource_type model_cls <> inr "u")
  /\ (forall path meta s,
        add_meta User path meta s = add_meta Resource path meta s
        /\ remove_meta User path meta s = remove_meta Resource path meta s)
  /\ (forall other src dest s,
        copy_meta User other src dest s = copy_meta Resource other src dest s
        /\ copy_meta other User src dest s
           = copy_meta other Resource src dest s)
  /\ (forall path s, get_meta User path s = get_meta Resource path s).
Proof.
  do 6 (split; [reflexivity |]).
  split; [exact resource_type_never_u |].
  split; [intros path meta s; split; reflexivity |].
  split; [| reflexivity].
  intros other src dest s. split; [reflexivity |].
  destruct other; reflexivity.
Qed.

(** ** Metadata of a user *)

Lemma same_wire_refl (s : iRODSSession) : same_wire s s.
Proof. reflexivity. Qed.

Lemma same_wire_trans (s t u : iRODSSession) :
  same_wire s t -> same_wire t u -> same_wire s u.
Proof. unfold same_wire. intros H1 H2. rewrite H2. exact H1. Qed.

Lemma same_wire_recv : respects same_wire _recv.
Proof.
  apply respects_recv.
  - exact same_wire_refl.
  - exact same_wire_trans.
  - intros s. exact (wire_pop s).
Qed.

Lemma same_wire_meta_of_rows (model : Model) (results : ResultSet) :
  respects same_wire (meta_of_rows model results).
Proof.
  assert (Hrefl := same_wire_refl). assert (Htrans := same_wire_trans).
  assert (Hrow : forall row c, respects same_wire (row_get row c))
    by (intros row c; apply respects_row_get; assumption).
  unfold meta_of_rows. respects_tac.
Qed.

(** An authenticated, connected session sends a query as one message. *)
Lemma wire_execute_query (q : Query) (s : iRODSSession) :
  authenticated s = true -> socket s <> None ->
  wire (snd (execute_query q s)) = wire s ++ [(true, query_request q)].
Proof.
  intros Ha Hs.
  assert (Hrefl := same_wire_refl). assert (Htrans := same_wire_trans).
  assert (Hrecv := same_wire_recv).
  assert (Hmain : forall m, respects same_wire (get_main_message GenQueryOut m))
    by (intros m; apply respects_get_main_message; assumption).
  unfold execute_query. unfold bind at 1.
  rewrite (ensure_authenticated_done _ Ha). unfold bind at 1.
  fold (query_request q). rewrite (send_connected _ _ Hs).
  assert (Hw : wire (push s (query_request q))
               = wire s ++ [(true, query_request q)])
    by (rewrite (wire_push _ _ Hs), Ha; reflexivity).
  rewrite <- Hw. clear Hw.
  generalize (push s (query_request q)).
  match goal with
  | |- forall t, wire (snd (?m t)) = wire t => change (respects same_wire m)
  end.
  respects_tac.
Qed.

(** C10. [get_meta] called for [User] is [get_meta] called for
    [Resource]: the model queried is [ResourceMeta] and the condition is
    [Resource.name == path]; on a logged-in, connected session the one
    message sent is that query. No model class is mapped to "u", so the
    entries [UserMeta] and [User.name == path] of the two tables, though
    present, are never selected. *)
Theorem get_meta_user_queries_resource (path : string) (s : iRODSSession) :
  get_meta User path s = get_meta Resource path s
  /\ get_meta User path s
     = bind (all (meta_query ResourceMeta [col_eq (attr Resource "name") path]))
         (meta_of_rows ResourceMeta) s
  /\ (authenticated s = true -> socket s <> None ->
      wire (snd (get_meta User path s))
      = wire s
        ++ [(true,
             query_request
               (meta_query ResourceMeta
                  [col_eq (attr Resource "name") path]))])
  /\ dict_get String.eqb meta_models "u" = inr UserMeta
  /\ dict_get String.eqb (meta_conditions path) "u"
     = inr [col_eq (attr User "name") path]
  /\ (forall model_cls resource_type,
        _model_class_to_resource_type model_cls = inr resource_type ->
        dict_get String.eqb meta_models resource_type <> inr UserMeta
        /\ dict_get String.eqb (meta_conditions path) resource_type
           <> inr [col_eq (attr User "name") path]).
Proof.
  assert (Hshape :
    get_meta User path s
    = bind (all (meta_query ResourceMeta [col_eq (attr Resource "name") path]))
        (meta_of_rows ResourceMeta) s) by reflexivity.
  split; [reflexivity |]. split; [exact Hshape |].
  split.
  { intros Ha Hs. rewrite Hshape. unfold bind, all.
    pose proof (wire_execute_query
                  (meta_query ResourceMeta [col_eq (attr Resource "name") path])
                  s Ha Hs) as Hw.
    destruct (execute_query _ s) as [[e | results] s1]; simpl in *.
    - exact Hw.
    - rewrite <- Hw. apply same_wire_meta_of_rows. }
  split; [reflexivity |]. split; [reflexivity |].
  intros model_cls resource_type H.
  destruct model_cls; simpl in H; inversion H; subst; split; discriminate.
Qed.

(** ** Seeking *)

Lemma seek_file_reported (desc offset whence : Z) (s : iRODSSession)
    (m : iRODSMessage) (rest : list iRODSMessage) (result : Z) :
  authenticated s = true -> inbox s = m :: rest -> 0 <= int_info m ->
  msg m = Some (fileLseekOut_PI (mkFileLseekOut result)) ->
  seek_file desc offset whence s
  = (inr result, pop (push s (seek_request desc offset whence)))
  /\ authenticated (pop (push s (seek_request desc offset whence))) = true
  /\ inbox (pop (push s (seek_request desc offset whence))) = rest
  /\ wire (pop (push s (seek_request desc offset whence)))
     = wire s ++ [(true, seek_request desc offset whence)].
Proof.
  intros Ha Hin Hpos Hmsg.
  assert (Hs : socket s <> None) by exact (inbox_socket _ _ _ Hin).
  assert (Hin1 : inbox (push s (seek_request desc offset whence)) = m :: rest)
    by (rewrite inbox_push; exact Hin).
  split; [| split; [| split]].
  - unfold seek_file, bind.
    rewrite (ensure_authenticated_done _ Ha).
    fold (seek_request desc offset whence).
    rewrite (send_connected _ _ Hs), (recv_nonnegative _ _ _ Hin1 Hpos).
    unfold get_main_message. rewrite Hmsg. reflexivity.
  - rewrite authenticated_pop, authenticated_push. exact Ha.
  - exact (inbox_pop _ _ _ Hin1).
  - rewrite wire_pop, (wire_push _ _ Hs), Ha. reflexivity.
Qed.

Lemma lseek_reply_inv (position size desc offset whence : Z)
    (m : iRODSMessage) :
  lseek_reply position size (seek_request desc offset whence) = Some m ->
  exists result,
    lseek position size offset whence = Some result
    /\ 0 <= int_info m
    /\ msg m = Some (fileLseekOut_PI (mkFileLseekOut result)).
Proof.
  unfold lseek_reply, seek_request, api_request, message. simpl.
  destruct (lseek position size offset whence) as [result |]; [| discriminate].
  intros H. inversion H. subst m. exists result. simpl.
  repeat split. lia.
Qed.

(** C9. [seek_file] sends the descriptor, the offset and [whence] as
    given and returns the offset the reply carries. Against a server
    that moves its position as POSIX [lseek] does, that offset is
    [offset] for [whence] 0, the position plus [offset] for 1 and the
    size plus [offset] for 2; so a seek to 10 from the start returns 10
    and a following seek by 5 from the position returns 15. *)
Theorem seek_file_returns_offset (desc offset whence : Z) (s : iRODSSession)
    (m : iRODSMessage) (rest : list iRODSMessage) (result : Z) :
  authenticated s = true -> inbox s = m :: rest -> 0 <= int_info m ->
  msg m = Some (fileLseekOut_PI (mkFileLseekOut result)) ->
  let s' := pop (push s (seek_request desc offset whence)) in
  seek_file desc offset whence s = (inr result, s')
  /\ wire s' = wire s ++ [(true, seek_request desc offset whence)]
  /\ msg (seek_request desc offset whence)
     = Some (fileLseekInp desc offset whence)
  /\ (forall position size,
        lseek_reply position size (seek_request desc offset whence) = Some m ->
        (whence = SEEK_SET -> result = offset)
        /\ (whence = SEEK_CUR -> result = position + offset)
        /\ (whence = SEEK_END -> result = size + offset))
  /\ (forall position size t r1 r2 others,
        authenticated t = true -> inbox t = r1 :: r2 :: others ->
        lseek_reply position size (seek_request desc 10 SEEK_SET) = Some r1 ->
        lseek_reply 10 size (seek_request desc 5 SEEK_CUR) = Some r2 ->
        exists t1 t2,
          seek_file desc 10 SEEK_SET t = (inr 10, t1)
          /\ seek_file desc 5 SEEK_CUR t1 = (inr 15, t2)).
Proof.
  intros Ha Hin Hpos Hmsg s'.
  destruct (seek_file_reported desc offset whence s m rest result
              Ha Hin Hpos Hmsg) as [Hrun [_ [_ Hw]]].
  split; [exact Hrun |]. split; [exact Hw |]. split; [reflexivity |].
  split.
  - intros position size Hreply.
    destruct (lseek_reply_inv _ _ _ _ _ _ Hreply) as [r [Hl [_ Hm]]].
    rewrite Hmsg in Hm. inversion Hm. subst r. clear Hm.
    unfold lseek in Hl. repeat split; intros Hwh; subst whence;
      simpl in Hl; inversion Hl; reflexivity.
  - intros position size t r1 r2 others Hta Hti H1 H2.
    destruct (lseek_reply_inv _ _ _ _ _ _ H1) as [x1 [Hl1 [Hp1 Hm1]]].
    destruct (lseek_reply_inv _ _ _ _ _ _ H2) as [x2 [Hl2 [Hp2 Hm2]]].
    simpl in Hl1, Hl2. inversion Hl1. inversion Hl2. subst x1 x2.
    destruct (seek_file_reported desc 10 SEEK_SET t r1 (r2 :: others) 10
                Hta Hti Hp1 Hm1) as [Hr1 [Ha1 [Hi1 _]]].
    destruct (seek_file_reported desc 5 SEEK_CUR _ r2 others 15
                Ha1 Hi1 Hp2 Hm2) as [Hr2 _].
    eexists. eexists. split; [exact Hr1 | exact Hr2].
Qed.

(** ** Resolving by path *)

Lemma guard_absorbed {A : Type} (k : M A) (s s1 : iRODSSession) (u : unit) :
  ensure_authenticated s = (inr u, s1) ->
  bind ensure_authenticated (fun _ => k) s
  = bind ensure_authenticated (fun _ => k) s1.
Proof.
  intros H. unfold bind.
  rewrite H, (ensure_authenticated_done _ (ensure_authenticated_success _ _ _ H)).
  reflexivity.
Qed.

Lemma guard_failed {A : Type} (k : M A) (s s1 : iRODSSession) (e : exn) :
  ensure_authenticated s = (inl e, s1) ->
  bind ensure_authenticated (fun _ => k) s = (inl e, s1).
Proof. intros H. unfold bind. rewrite H. reflexivity. Qed.

Lemma get_collection_eq (path : string) (s : iRODSSession) :
  get_collection path s
  = bind (execute_query (collection_query path)) one_collection s.
Proof.
  change (get_collection path)
    with (bind ensure_authenticated
            (fun _ => bind (execute_query (collection_query path))
                        one_collection)).
  destruct (ensure_authenticated s) as [[e | u] s1] eqn:E.
  - rewrite (guard_failed _ _ _ _ E). unfold bind at 1, execute_query.
    rewrite (guard_failed _ _ _ _ E). reflexivity.
  - unfold bind at 1. rewrite E. unfold bind.
    rewrite (proj1 (execute_query_after_guard _ _ _ _ E)). reflexivity.
Qed.

Lemma get_collection_after_guard (path : string) (s s1 : iRODSSession)
    (u : unit) :
  ensure_authenticated s = (inr u, s1) ->
  get_collection path s = get_collection path s1.
Proof. intros H. exact (guard_absorbed _ s s1 u H). Qed.

Lemma get_data_object_eq (path : string) (s : iRODSSession) :
  get_data_object path s
  = bind (get_collection (dirname path))
      (fun parent =>
         bind (collection_id parent)
           (fun parent_id =>
              bind (execute_query
                      (data_object_query (basename path) parent_id))
                (one_data_object parent))) s.
Proof.
  match goal with
  | |- _ = ?rest s =>
      change (get_data_object path) with (bind ensure_authenticated (fun _ => rest))
  end.
  destruct (ensure_authenticated s) as [[e | u] s1] eqn:E.
  - rewrite (guard_failed _ _ _ _ E). unfold bind at 1.
    unfold get_collection. rewrite (guard_failed _ _ _ _ E). reflexivity.
  - unfold bind at 1. rewrite E. unfold bind at 1 4.
    rewrite (get_collection_after_guard _ _ _ _ E). reflexivity.
Qed.

Lemma one_row_length (results : ResultSet) (row : Row) :
  rows results = [row] -> length results = 1 /\ first_row results = row.
Proof.
  intros H. unfold length, first_row. rewrite H. split; reflexivity.
Qed.

Lemma not_one_row_length (results : ResultSet) :
  List.length (rows results) <> 1%nat -> (length results =? 1) = false.
Proof. intros H. apply Z.eqb_neq. unfold length. lia. Qed.

(** C6. [get_collection] runs the query on the collection model with
    the one condition [Collection.name == path]: when the query raises,
    so does [get_collection]; when it yields exactly one row, the result
    is the collection wrapping that row; when it yields none or several,
    [CollectionDoesNotExist] is raised. [get_data_object] first resolves
    the collection at the directory part of the path, and raises what
    that raises; with the parent at hand it runs the query on the data
    object model with the conditions [DataObject.name == basename(path)]
    and [DataObject.collection_id == parent.id], and returns the data
    object wrapping the parent and the row when there is exactly one
    row, raising [DataObjectDoesNotExist] otherwise. *)
Theorem resolve_requires_one_match (path : string) (s : iRODSSession) :
  criteria (collection_query path) = [col_eq (attr Collection "name") path]
  /\ (forall e s',
        execute_query (collection_query path) s = (inl e, s') ->
        get_collection path s = (inl e, s'))
  /\ (forall results s',
        execute_query (collection_query path) s = (inr results, s') ->
        (forall row, rows results = [row] ->
                     get_collection path s = (inr (mkCollection row), s'))
        /\ (List.length (rows results) <> 1%nat ->
            get_collection path s = (inl CollectionDoesNotExist, s')))
  /\ (forall e s1,
        get_collection (dirname path) s = (inl e, s1) ->
        get_data_object path s = (inl e, s1))
  /\ (forall parent s1 parent_id,
        get_collection (dirname path) s = (inr parent, s1) ->
        collection_id parent s1 = (inr parent_id, s1) ->
        let q := data_object_query (basename path) parent_id in
        criteria q
        = [col_eq (attr DataObject "name") (basename path);
           col_eq (attr DataObject "collection_id") parent_id]
        /\ (forall e s2,
              execute_query q s1 = (inl e, s2) ->
              get_data_object path s = (inl e, s2))
        /\ (forall results s2,
              execute_query q s1 = (inr results, s2) ->
              (forall row, rows results = [row] ->
                           get_data_object path s
                           = (inr (mkDataObject parent row), s2))
              /\ (List.length (rows results) <> 1%nat ->
                  get_data_object path s = (inl DataObjectDoesNotExist, s2)))).
Proof.
  split; [reflexivity |].
  split.
  { intros e s' H. rewrite get_collection_eq. unfold bind. rewrite H.
    reflexivity. }
  split.
  { intros results s' H. split.
    - intros row Hrow. rewrite get_collection_eq. unfold bind. rewrite H.
      destruct (one_row_length _ _ Hrow) as [Hlen Hfirst].
      unfold one_collection. rewrite Hlen, Hfirst. reflexivity.
    - intros Hlen. rewrite get_collection_eq. unfold bind. rewrite H.
      unfold one_collection. rewrite (not_one_row_length _ Hlen). reflexivity. }
  split.
  { intros e s1 H. rewrite get_data_object_eq. unfold bind at 1. rewrite H.
    reflexivity. }
  intros parent s1 parent_id Hparent Hid q.
  split; [reflexivity |].
  split.
  { intros e s2 H. rewrite get_data_object_eq. unfold bind.
    rewrite Hparent, Hid. fold q. rewrite H. reflexivity. }
  intros results s2 H. split.
  - intros row Hrow. rewrite get_data_object_eq. unfold bind.
    rewrite Hparent, Hid. fold q. rewrite H.
    destruct (one_row_length _ _ Hrow) as [Hlen Hfirst].
    unfold one_data_object. rewrite Hlen, Hfirst. reflexivity.
  - intros Hlen. rewrite get_data_object_eq. unfold bind.
    rewrite Hparent, Hid. fold q. rewrite H.
    unfold one_data_object. rewrite (not_one_row_length _ Hlen). reflexivity.
Qed.

(** ** Creating a data object *)

Lemma close_file_ok (desc : Z) (s : iRODSSession) (c : iRODSMessage)
    (rest : list iRODSMessage) :
  authenticated s = true -> inbox s = c :: rest -> 0 <= int_info c ->
  close_file desc s = (inr tt, pop (push s (close_request desc))).
Proof.
  intros Ha Hin Hpos.
  assert (Hs : socket s <> None) by exact (inbox_socket _ _ _ Hin).
  assert (Hin1 : inbox (push s (close_request desc)) = c :: rest)
    by (rewrite inbox_push; exact Hin).
  unfold close_file, bind. rewrite (ensure_authenticated_done _ Ha).
  fold (close_request desc).
  rewrite (send_connected _ _ Hs), (recv_nonnegative _ _ _ Hin1 Hpos).
  reflexivity.
Qed.

Lemma create_data_object_sent (path : string) (s : iRODSSession)
    (m : iRODSMessage) (rest : list iRODSMessage) :
  authenticated s = true -> inbox s = m :: rest -> 0 <= int_info m ->
  create_data_object path s
  = bind (close_file (int_info m)) (fun _ => get_data_object path)
      (pop (push s (create_request path))).
Proof.
  intros Ha Hin Hpos.
  assert (Hs : socket s <> None) by exact (inbox_socket _ _ _ Hin).
  assert (Hin1 : inbox (push s (create_request path)) = m :: rest)
    by (rewrite inbox_push; exact Hin).
  unfold create_data_object. unfold bind at 1.
  rewrite (ensure_authenticated_done _ Ha). unfold bind at 1.
  fold (create_request path). rewrite (send_connected _ _ Hs).
  unfold bind at 1. rewrite (recv_nonnegative _ _ _ Hin1 Hpos).
  reflexivity.
Qed.

(** The result of a method does not depend on what was sent before. *)

Lemma log_blind_ret {A : Type} (a : A) : log_blind (ret a).
Proof. intros s t H. split; [reflexivity | exact H]. Qed.

Lemma log_blind_raise {A : Type} (e : exn) : log_blind (@raise A e).
Proof. intros s t H. split; [reflexivity | exact H]. Qed.

Lemma log_blind_lift {A : Type} (r : exn + A) : log_blind (lift r).
Proof. intros s t H. split; [reflexivity | exact H]. Qed.

Lemma log_blind_gets {A : Type} (f : iRODSSession -> A) :
  (forall s, f (forget_log s) = f s) -> log_blind (gets f).
Proof.
  intros Hf s t H. split; [| exact H].
  unfold gets. simpl. rewrite <- (Hf s), <- (Hf t), H. reflexivity.
Qed.

Lemma log_blind_bind {A B : Type} (m : M A) (f : A -> M B) :
  log_blind m -> (forall a, log_blind (f a)) -> log_blind (bind m f).
Proof.
  intros Hm Hf s t H. unfold bind.
  destruct (Hm s t H) as [H1 H2].
  destruct (m s) as [[e | a] s1]; destruct (m t) as [[e' | a'] t1];
    simpl in *; try discriminate H1.
  - inversion H1. split; [reflexivity | exact H2].
  - inversion H1. subst a'. exact (Hf a s1 t1 H2).
Qed.

Lemma log_blind_try_except {A : Type} (body handler : M A)
    (catches : exn -> bool) :
  log_blind body -> log_blind handler ->
  log_blind (try_except body catches handler).
Proof.
  intros Hb Hh s t H. unfold try_except.
  destruct (Hb s t H) as [H1 H2].
  destruct (body s) as [[e | a] s1]; destruct (body t) as [[e' | a'] t1];
    simpl in *; try discriminate H1.
  - inversion H1. subst e'. destruct (catches e).
    + exact (Hh s1 t1 H2).
    + split; [reflexivity | exact H2].
  - split; [exact H1 | exact H2].
Qed.

Lemma log_blind_for_each {A B : Type} (f : A -> M B) (l : list A) :
  (forall a, log_blind (f a)) -> log_blind (for_each f l).
Proof.
  intros Hf. induction l as [| a rest IH]; simpl.
  - apply log_blind_ret.
  - apply log_blind_bind; [apply Hf | intros b].
    apply log_blind_bind; [exact IH | intros bs]. apply log_blind_ret.
Qed.

Lemma log_blind_send (m : iRODSMessage) : log_blind (_send m).
Proof.
  intros [h p u z pw [[o i] |] a] [h' p' u' z' pw' [[o' i'] |] a'] H;
    unfold forget_log, set_socket in H; simpl in H; inversion H; subst;
    unfold _send, forget_log, set_socket; simpl; split; reflexivity.
Qed.

Lemma log_blind_recv : log_blind iRODSMessage_recv.
Proof.
  intros [h p u z pw [[o i] |] a] [h' p' u' z' pw' [[o' i'] |] a'] H;
    unfold forget_log, set_socket in H; simpl in H; inversion H; subst;
    unfold iRODSMessage_recv, forget_log, set_socket; simpl;
    try (split; reflexivity).
  destruct i' as [| m rest]; simpl; split; reflexivity.
Qed.

Lemma log_blind_flag :
  log_blind (modify (fun s => set_authenticated s true)).
Proof.
  intros [h p u z pw k a] [h' p' u' z' pw' k' a'] H.
  unfold forget_log, set_socket in H; simpl in H. inversion H. subst.
  unfold modify, forget_log, set_socket, set_authenticated. simpl.
  split; [reflexivity |]. f_equal. assumption.
Qed.

Ltac log_blind_tac :=
  repeat
    (cbv zeta;
     lazymatch goal with
     | |- log_blind (ret _) => apply log_blind_ret
     | |- log_blind (raise _) => apply log_blind_raise
     | |- log_blind (lift _) => apply log_blind_lift
     | |- log_blind (gets _) =>
         apply log_blind_gets; intros s; destruct s as [? ? ? ? ? [?|] ?];
         reflexivity
     | |- log_blind (bind _ _) => apply log_blind_bind; [| intro]
     | |- log_blind (try_except _ _ _) => apply log_blind_try_except
     | |- log_blind (for_each _ _) => apply log_blind_for_each; intro
     | |- log_blind (_send _) => apply log_blind_send
     | |- log_blind iRODSMessage_recv => apply log_blind_recv
     | |- log_blind (modify _) => apply log_blind_flag
     | |- log_blind (if ?b then _ else _) => destruct b
     | |- log_blind (match ?x with _ => _ end) => destruct x
     | |- log_blind _ => solve [auto with log_blind]
     end).

Create HintDb log_blind.

Lemma log_blind__recv : log_blind _recv.
Proof. unfold _recv. log_blind_tac. Qed.

Lemma log_blind_get_main_message (A : Type) `{Unpack A} (m : iRODSMessage) :
  log_blind (get_main_message A m).
Proof. unfold get_main_message. log_blind_tac. Qed.

#[local] Hint Resolve log_blind__recv log_blind_get_main_message : log_blind.

Lemma log_blind_login : log_blind _login.
Proof. unfold _login. log_blind_tac. Qed.

#[local] Hint Resolve log_blind_login : log_blind.

Lemma log_blind_ensure_authenticated : log_blind ensure_authenticated.
Proof. unfold ensure_authenticated. log_blind_tac. Qed.

#[local] Hint Resolve log_blind_ensure_authenticated : log_blind.

Lemma log_blind_execute_query (q : Query) : log_blind (execute_query q).
Proof. unfold execute_query. log_blind_tac. Qed.

#[local] Hint Resolve log_blind_execute_query : log_blind.

Lemma log_blind_get_collection (path : string) :
  log_blind (get_collection path).
Proof. unfold get_collection. log_blind_tac. Qed.

#[local] Hint Resolve log_blind_get_collection : log_blind.

Lemma log_blind_get_data_object (path : string) :
  log_blind (get_data_object path).
Proof. unfold get_data_object, collection_id, row_get, all. log_blind_tac. Qed.

Lemma authenticated_deliver (s : iRODSSession) (replies : list iRODSMessage) :
  authenticated (deliver s replies) = authenticated s.
Proof. unfold deliver. destruct (socket s); reflexivity. Qed.

Lemma create_data_object_closed (path : string) (s : iRODSSession)
    (m c : iRODSMessage) (rest : list iRODSMessage) :
  authenticated s = true -> inbox s = m :: c :: rest ->
  0 <= int_info m -> 0 <= int_info c ->
  create_data_object path s
  = get_data_object path
      (pop (push (pop (push s (create_request path)))
              (close_request (int_info m)))).
Proof.
  intros Ha Hin Hm Hc.
  assert (Hs : socket s <> None) by exact (inbox_socket _ _ _ Hin).
  assert (Hin1 : inbox (push s (create_request path)) = m :: c :: rest)
    by (rewrite inbox_push; exact Hin).
  rewrite (create_data_object_sent _ _ _ _ Ha Hin Hm). unfold bind.
  rewrite (close_file_ok _ _ c rest).
  - reflexivity.
  - rewrite authenticated_pop, authenticated_push. exact Ha.
  - exact (inbox_pop _ _ _ Hin1).
  - exact Hc.
Qed.

(** C5. On a logged-in session, with a create reply and a close reply
    of status not negative next on the socket, [create_data_object]
    sends the create request, then the close request for the descriptor
    taken from the status field of the create reply, and its result is
    the result of [get_data_object] on the session left by these two
    exchanges. The result is the same whatever the create reply is, as
    long as its status is not negative. *)
Theorem create_returns_fetched_object (path : string) (s : iRODSSession)
    (m c : iRODSMessage) (rest : list iRODSMessage) :
  authenticated s = true -> inbox s = m :: c :: rest ->
  0 <= int_info m -> 0 <= int_info c ->
  let s' :=
    pop (push (pop (push s (create_request path)))
           (close_request (int_info m))) in
  create_data_object path s = get_data_object path s'
  /\ wire s'
     = wire s
       ++ [(true, create_request path); (true, close_request (int_info m))]
  /\ msg (close_request (int_info m)) = Some (dataObjCloseInp (int_info m))
  /\ inbox s' = rest
  /\ (forall m',
        0 <= int_info m' ->
        fst (create_data_object path (deliver s (m' :: c :: rest)))
        = fst (create_data_object path s)).
Proof.
  intros Ha Hin Hm Hc s'.
  assert (Hs : socket s <> None) by exact (inbox_socket _ _ _ Hin).
  assert (Hin1 : inbox (push s (create_request path)) = m :: c :: rest)
    by (rewrite inbox_push; exact Hin).
  assert (Hs2 : socket (pop (push s (create_request path))) <> None)
    by (apply socket_pop, socket_push; exact Hs).
  split; [exact (create_data_object_closed _ _ _ _ _ Ha Hin Hm Hc) |].
  split.
  { unfold s'. rewrite wire_pop, (wire_push _ _ Hs2), wire_pop.
    rewrite (wire_push _ _ Hs), authenticated_pop, authenticated_push, Ha.
    rewrite <- app_assoc. reflexivity. }
  split; [reflexivity |].
  split.
  { unfold s'. apply (inbox_pop _ c). rewrite inbox_push.
    exact (inbox_pop _ _ _ Hin1). }
  intros m' Hm'.
  rewrite (create_data_object_closed _ _ _ _ _ Ha Hin Hm Hc).
  rewrite (create_data_object_closed path (deliver s (m' :: c :: rest))
             m' c rest).
  - apply log_blind_get_data_object.
    destruct s as [h p u z pw [[o i] |] a];
      [| exfalso; apply Hs; reflexivity].
    unfold inbox in Hin. simpl in Hin. subst i. reflexivity.
  - rewrite authenticated_deliver. exact Ha.
  - apply inbox_deliver. exact Hs.
  - exact Hm'.
  - exact Hc.
Qed.

(** ** The metadata methods *)

Lemma recv_done_keeps (t : iRODSSession) :
  wire (snd (bind _recv (fun _ => ret tt) t)) = wire t
  /\ authenticated (snd (bind _recv (fun _ => ret tt) t)) = authenticated t.
Proof.
  unfold bind, _recv, bind.
  destruct (iRODSMessage_recv t) as [[e | r] t1] eqn:E.
  - change t1 with (snd (@inl exn iRODSMessage e, t1)). rewrite <- E.
    split; [apply wire_pop | apply authenticated_pop].
  - assert (H1 : wire t1 = wire t /\ authenticated t1 = authenticated t).
    { change t1 with (snd (@inr exn iRODSMessage r, t1)). rewrite <- E.
      split; [apply wire_pop | apply authenticated_pop]. }
    destruct (int_info r <? 0); simpl; exact H1.
Qed.

(** [add_meta] has no login guard: on a connected session its request
    is the next message sent, whatever the [authenticated] flag is, and
    the flag is left as it was. *)
Lemma add_meta_unguarded (model_cls : Model) (path : string)
    (meta : iRODSMeta) (resource_type : string) (s : iRODSSession) :
  _model_class_to_resource_type model_cls = inr resource_type ->
  socket s <> None ->
  wire (snd (add_meta model_cls path meta s))
  = wire s
    ++ [(authenticated s,
         api_request "MOD_AVU_METADATA_AN"
           (ModAVUMetadataInp
              ["add"; String.append "-" resource_type; path;
               meta_name meta; meta_value meta; meta_units meta])
           None)]
  /\ authenticated (snd (add_meta model_cls path meta s)) = authenticated s.
Proof.
  intros Hrt Hs.
  set (request :=
         api_request "MOD_AVU_METADATA_AN"
           (ModAVUMetadataInp
              ["add"; String.append "-" resource_type; path;
               meta_name meta; meta_value meta; meta_units meta])
           None).
  assert (Heq : add_meta model_cls path meta s
                = bind _recv (fun _ => ret tt) (push s request)).
  { unfold add_meta. unfold bind at 1, lift. rewrite Hrt.
    unfold bind at 1. fold request. rewrite (send_connected _ _ Hs).
    reflexivity. }
  rewrite Heq. destruct (recv_done_keeps (push s request)) as [Hw Ha].
  rewrite Hw, Ha, (wire_push _ _ Hs), authenticated_push.
  split; reflexivity.
Qed.

(** ** A failed login *)

Lemma socket_challenged (s : iRODSSession) (ch : bytes) :
  socket s <> None -> socket (challenged s ch) <> None.
Proof.
  intros Hs. unfold challenged. apply socket_push, socket_pop, socket_push.
  exact Hs.
Qed.

(** C7, as amended. When the final envelope of the handshake has a
    negative status, [_login] raises the exception the table gives for
    that status; when its status is not negative and its error segment
    is not empty, [_login] raises the plain
    [Exception("Unsuccessful login attempt")]. In both cases the
    [authenticated] flag is still false afterwards, and every method
    that starts with the login guard, called next, first sends the
    authentication request again. [_login] turns the flag to true only
    when it returns, which it does only on a final envelope with a
    status that is not negative and no error segment. *)
Theorem failed_login_stays_unauthenticated (s : iRODSSession)
    (c f : iRODSMessage) (rest : list iRODSMessage) (body : authRequestOut) :
  authenticated s = false -> inbox s = c :: f :: rest ->
  0 <= int_info c -> msg c = Some (authRequestOut_PI body) ->
  let s' := pop (challenged s (challenge body)) in
  (int_info f < 0 ->
   _login s = (inl (get_exception_by_code (int_info f)), s'))
  /\ (0 <= int_info f -> error f <> "" ->
      _login s = (inl (Exception "Unsuccessful login attempt"), s'))
  /\ (0 <= int_info f -> error f = "" ->
      _login s = (inr tt, set_authenticated s' true))
  /\ authenticated s' = false
  /\ (forall call,
        guarded call = true ->
        exists tail,
          wire (snd (run call s')) = wire s' ++ (false, auth_req) :: tail)
  /\ (forall t r t',
        _login t = (r, t') -> authenticated t = false ->
        authenticated t' = true ->
        r = inr tt
        /\ exists c' f' rest',
             inbox t = c' :: f' :: rest'
             /\ 0 <= int_info f' /\ error f' = "").
Proof.
  intros Ha Hin Hc Hmsg s'.
  assert (Hs : socket s <> None) by exact (inbox_socket _ _ _ Hin).
  destruct (login_challenged _ _ _ _ Hin Hc Hmsg) as [Hlogin Hrest].
  assert (Ha' : authenticated s' = false).
  { unfold s'. rewrite authenticated_pop, authenticated_challenged. exact Ha. }
  split.
  { intros Hneg. rewrite Hlogin.
    exact (conclude_login_rejected _ _ _ Hrest Hneg). }
  split.
  { intros Hpos Herr. rewrite Hlogin.
    exact (conclude_login_error _ _ _ Hrest Hpos Herr). }
  split.
  { intros Hpos Herr. rewrite Hlogin.
    exact (conclude_login_accepted _ _ _ Hrest Hpos Herr). }
  split; [exact Ha' |].
  split.
  { intros call G. apply guarded_first_message; [exact G | | exact Ha'].
    unfold s'. apply socket_pop, socket_challenged. exact Hs. }
  intros t r t' Hrun Hta Hta'.
  destruct (login_outcome t)
    as [[c' [f' [rest' [body' [Hi [_ [_ [Hp [He Hr]]]]]]]]] | [e [t1 [Hr Hf]]]].
  - rewrite Hr in Hrun. inversion Hrun. split; [reflexivity |].
    exists c', f', rest'. repeat split; assumption.
  - rewrite Hr in Hrun. inversion Hrun. subst t1.
    rewrite Hf, Hta in Hta'. discriminate Hta'.
Qed.

End Claims.

(** * Further properties of the session *)

(** ** Methods on a session that has logged in *)

Section Quiet.

Context {imports : Imports}.

Variable R : iRODSSession -> iRODSSession -> Prop.
Hypothesis R_refl : forall s, R s s.
Hypothesis R_trans : forall s t u, R s t -> R t u -> R s u.
Hypothesis R_request : forall m, handshake m = false -> respects R (_send m).
Hypothesis R_recv : respects R _recv.
Hypothesis R_guard : respects R ensure_authenticated.

Ltac request_tac :=
  repeat
    (cbv zeta;
     lazymatch goal with
     | |- respects _ (ret _) => apply respects_ret; assumption
     | |- respects _ (raise _) => apply respects_raise; assumption
     | |- respects _ (gets _) => apply respects_gets; assumption
     | |- respects _ (lift _) => apply respects_lift; assumption
     | |- respects _ (bind _ _) =>
         apply respects_bind; [assumption | | intro]
     | |- respects _ (try_except _ _ _) =>
         apply respects_try_except; [assumption | | ]
     | |- respects _ (for_each _ _) =>
         apply respects_for_each; [assumption | assumption | intro]
     | |- respects _ (_send _) => apply R_request; reflexivity
     | |- respects _ (get_main_message _ _) =>
         apply respects_get_main_message; assumption
     | |- respects _ (row_get _ _) => apply respects_row_get; assumption
     | |- respects _ (if ?b then _ else _) => destruct b
     | |- respects _ (match ?x with _ => _ end) => destruct x
     | |- respects _ _ => solve [auto with requests]
     end).

Create HintDb requests.

#[local] Hint Resolve R_recv R_guard : requests.

Lemma request_execute_query (q : Query) : respects R (execute_query q).
Proof. unfold execute_query. request_tac. Qed.

#[local] Hint Resolve request_execute_query : requests.

Lemma request_get_collection (path : string) :
  respects R (get_collection path).
Proof. unfold get_collection. request_tac. Qed.

#[local] Hint Resolve request_get_collection : requests.

Lemma request_get_data_object (path : string) :
  respects R (get_data_object path).
Proof. unfold get_data_object, collection_id, all. request_tac. Qed.

Lemma request_close_file (desc : Z) : respects R (close_file desc).
Proof. unfold close_file. request_tac. Qed.

#[local] Hint Resolve request_get_data_object request_close_file : requests.

Lemma request_run (c : Call) (s : iRODSSession) : R s (snd (run c s)).
Proof.
  destruct c; simpl; rewrite snd_outcome;
    [ apply request_get_collection
    | apply request_get_data_object
    | unfold create_data_object
    | unfold open_file
    | unfold read_file
    | unfold write_file
    | unfold seek_file
    | apply request_close_file
    | unfold unlink_data_object
    | apply request_execute_query
    | unfold get_meta, all
    | unfold add_meta
    | unfold remove_meta
    | unfold copy_meta ];
    match goal with
    | |- R s (snd (?m s)) => revert s; change (respects R m)
    | _ => idtac
    end;
    request_tac.
Qed.

End Quiet.

Section Extras.

Context {imports : Imports}.

Lemma quiet_refl (s : iRODSSession) : quiet s s.
Proof. intros H. split; [exact H | apply appended_refl]. Qed.

Lemma quiet_trans (s t u : iRODSSession) :
  quiet s t -> quiet t u -> quiet s u.
Proof.
  intros H1 H2 Hs. destruct (H1 Hs) as [Ht A1]. destruct (H2 Ht) as [Hu A2].
  split; [exact Hu | exact (appended_trans _ _ _ _ A1 A2)].
Qed.

Lemma quiet_request (m : iRODSMessage) :
  handshake m = false -> respects quiet (_send m).
Proof.
  intros Hm s Hs. split.
  - rewrite authenticated_send. exact Hs.
  - apply appended_send. split; [exact Hs | exact Hm].
Qed.

Lemma quiet_recv : respects quiet _recv.
Proof.
  apply respects_recv.
  - exact quiet_refl.
  - exact quiet_trans.
  - intros s Hs. split.
    + change (authenticated (pop s) = true). rewrite authenticated_pop.
      exact Hs.
    + apply appended_recv.
Qed.

Lemma quiet_guard : respects quiet ensure_authenticated.
Proof.
  intros s Hs. rewrite (ensure_authenticated_done _ Hs). apply quiet_refl.
  exact Hs.
Qed.

(** Whatever public method a logged-in session runs, it sends no message
    of the handshake. *)
Lemma run_quiet (c : Call) (s : iRODSSession) : quiet s (snd (run c s)).
Proof.
  apply (request_run quiet).
  - exact quiet_refl.
  - exact quiet_trans.
  - exact quiet_request.
  - exact quiet_recv.
  - exact quiet_guard.
Qed.

Lemma wire_set_authenticated (s : iRODSSession) (b : bool) :
  wire (set_authenticated s b) = wire s.
Proof. reflexivity. Qed.

(** X2. The [authenticated] flag is never taken back: a logged-in
    session is still logged in after any public method, whether the
    method returns or raises; and a method that starts with the login
    guard and returns leaves the session logged in, whatever the flag
    was before. *)
Theorem authenticated_after_call (c : Call) (s : iRODSSession) :
  (authenticated s = true -> authenticated (snd (run c s)) = true)
  /\ (guarded c = true -> fst (run c s) = None ->
      authenticated (snd (run c s)) = true).
Proof.
  split.
  - intros Ha. exact (proj1 (run_stays_authenticated c s Ha)).
  - intros G Hok. destruct (authenticated s) eqn:Ha.
    + exact (proj1 (run_stays_authenticated c s Ha)).
    + rewrite (run_guarded c s G Ha) in *.
      destruct (_login s) as [[e | u] s1] eqn:E; simpl in *.
      * discriminate Hok.
      * exact (proj1 (run_stays_authenticated c s1 (login_success _ _ _ E))).
Qed.

(** X3. The login runs once. When a method that starts with the guard
    is called on a connected session that has not logged in, and
    returns, the session has sent the authentication request and the
    answer to the challenge, in this order and once each; whatever
    public method is called next, nothing sent after these two messages,
    by the first call or by the second, is a message of the handshake. *)
Theorem login_runs_once (first next : Call) (s : iRODSSession) :
  guarded first = true -> authenticated s = false ->
  fst (run first s) = None ->
  exists nonce tail,
    wire (snd (run next (snd (run first s))))
    = wire s
      ++ (false, auth_req)
         :: (false, pwd_request (encoded_pwd nonce (password s)) (user s))
         :: tail
    /\ Forall (fun entry => fst entry = true
                            /\ handshake (snd entry) = false) tail.
Proof.
  intros G Ha Hok. rewrite (run_guarded first s G Ha) in *.
  destruct (login_outcome s)
    as [[c [f [rest [body [Hin [_ [_ [_ [_ Hrun]]]]]]]]] | [e [s1 [Hrun _]]]].
  2:{ rewrite Hrun in Hok. discriminate Hok. }
  rewrite Hrun in *. clear Hrun.
  set (s1 := set_authenticated (pop (challenged s (challenge body))) true) in *.
  assert (Hs : socket s <> None) by exact (inbox_socket _ _ _ Hin).
  assert (Hw1 : wire s1
                = wire s
                  ++ [(false, auth_req);
                      (false,
                       pwd_request (encoded_pwd (challenge body) (password s))
                         (user s))]).
  { unfold s1. rewrite wire_set_authenticated, wire_pop.
    rewrite (wire_challenged _ _ Hs), Ha. reflexivity. }
  destruct (run_quiet first s1 eq_refl) as [Ha2 [tail1 [Hw2 F1]]].
  destruct (run_quiet next (snd (run first s1)) Ha2) as [_ [tail2 [Hw3 F2]]].
  exists (challenge body), (tail1 ++ tail2). split.
  - rewrite Hw3, Hw2, Hw1, <- !app_assoc. reflexivity.
  - apply Forall_app. split; assumption.
Qed.

(** ** A session without a socket *)

(** X4. On a session whose socket is [None], as [__init__] without
    arguments leaves it, every public method raises and leaves the
    session as it was: [AttributeError] from the first send, or
    [KeyError] when a metadata method is given a model class that has no
    resource type. A method that starts with the login guard raises
    [AttributeError]. *)
Theorem no_socket_raises (c : Call) (s : iRODSSession) :
  socket s = None ->
  exists e,
    run c s = (Some e, s)
    /\ (e = AttributeError \/ e = KeyError)
    /\ (guarded c = true -> e = AttributeError).
Proof.
  intros Hs. destruct s as [h p u z pw k a]. simpl in Hs. subst k.
  destruct c; destruct a;
    try (exists AttributeError; split; [reflexivity | split; [left; reflexivity | reflexivity]]);
    try (destruct model_cls;
         solve [ exists AttributeError;
                 split; [reflexivity | split; [left; reflexivity | discriminate]]
               | exists KeyError;
                 split; [reflexivity | split; [right; reflexivity | discriminate]] ]);
    destruct src_model_cls; destruct dest_model_cls;
    solve [ exists AttributeError;
            split; [reflexivity | split; [left; reflexivity | discriminate]]
          | exists KeyError;
            split; [reflexivity | split; [right; reflexivity | discriminate]] ].
Qed.

(** ** Metadata methods and model classes without a resource type *)

(** X5. The four metadata methods look the model class up before they
    do anything else: for a class that is no key of the table they raise
    [KeyError], send nothing and leave the session as it was. [copy_meta]
    looks the source class up first and the destination class next, so
    it raises too when only the destination has no resource type. *)
Theorem unmapped_model_class_raises (model_cls : Model) :
  _model_class_to_resource_type model_cls = inl KeyError ->
  forall path meta other src dest s,
    get_meta model_cls path s = (inl KeyError, s)
    /\ add_meta model_cls path meta s = (inl KeyError, s)
    /\ remove_meta model_cls path meta s = (inl KeyError, s)
    /\ copy_meta model_cls other src dest s = (inl KeyError, s)
    /\ copy_meta other model_cls src dest s = (inl KeyError, s).
Proof.
  intros H path meta other src dest s.
  unfold get_meta, add_meta, remove_meta, copy_meta, bind, lift.
  rewrite H. repeat split.
  destruct other; reflexivity.
Qed.

(** The classes without a resource type are the four metadata models. *)
Lemma unmapped_model_classes (model_cls : Model) :
  _model_class_to_resource_type model_cls = inl KeyError
  <-> In model_cls [DataObjectMeta; CollectionMeta; ResourceMeta; UserMeta].
Proof.
  split.
  - destruct model_cls; simpl; intros H; try discriminate H; auto.
  - simpl. intros [H | [H | [H | [H | []]]]]; subst; reflexivity.
Qed.

(** ** One request, one reply *)

Lemma exchange_state {A : Type} (request : iRODSMessage)
    (k : iRODSMessage -> M A) (s : iRODSSession) (m : iRODSMessage)
    (rest : list iRODSMessage) :
  authenticated s = true -> inbox s = m :: rest ->
  (forall r t, snd (k r t) = t) ->
  snd (bind ensure_authenticated
         (fun _ => bind (_send request) (fun _ => bind _recv k)) s)
  = pop (push s request).
Proof.
  intros Ha Hin Hk.
  assert (Hs : socket s <> None) by exact (inbox_socket _ _ _ Hin).
  assert (Hin1 : inbox (push s request) = m :: rest)
    by (rewrite inbox_push; exact Hin).
  unfold bind at 1. rewrite (ensure_authenticated_done _ Ha).
  unfold bind at 1. rewrite (send_connected _ _ Hs). unfold bind.
  destruct (Z.lt_ge_cases (int_info m) 0) as [Hneg | Hpos].
  - rewrite (recv_negative _ _ _ Hin1 Hneg). reflexivity.
  - rewrite (recv_nonnegative _ _ _ Hin1 Hpos). apply Hk.
Qed.

Lemma execute_query_state (q : Query) (s : iRODSSession) (m : iRODSMessage)
    (rest : list iRODSMessage) :
  authenticated s = true -> inbox s = m :: rest ->
  snd (execute_query q s) = pop (push s (query_request q)).
Proof.
  intros Ha Hin.
  assert (Hs : socket s <> None) by exact (inbox_socket _ _ _ Hin).
  assert (Hin1 : inbox (push s (query_request q)) = m :: rest)
    by (rewrite inbox_push; exact Hin).
  unfold execute_query. unfold bind at 1.
  rewrite (ensure_authenticated_done _ Ha). unfold bind at 1.
  fold (query_request q). rewrite (send_connected _ _ Hs).
  unfold try_except, bind.
  destruct (Z.lt_ge_cases (int_info m) 0) as [Hneg | Hpos].
  - rewrite (recv_negative _ _ _ Hin1 Hneg).
    destruct (get_exception_by_code (int_info m)); reflexivity.
  - rewrite (recv_nonnegative _ _ _ Hin1 Hpos). unfold get_main_message.
    destruct (msg m) as [[] |]; reflexivity.
Qed.

(** X6. Each of [open_file], [read_file], [write_file], [seek_file],
    [close_file], [unlink_data_object] and [execute_query], called on a
    logged-in session with a reply waiting, sends exactly its one
    request and takes exactly one reply off the socket, whatever that
    reply is: one of status not negative, one of negative status or one
    whose body cannot be decoded. The replies behind it stay where they
    are for the next call. *)
Theorem one_request_one_reply (c : Call) (request : iRODSMessage)
    (s : iRODSSession) (m : iRODSMessage) (rest : list iRODSMessage) :
  request_of c = Some request ->
  authenticated s = true -> inbox s = m :: rest ->
  snd (run c s) = pop (push s request)
  /\ wire (snd (run c s)) = wire s ++ [(true, request)]
  /\ inbox (snd (run c s)) = rest
  /\ authenticated (snd (run c s)) = true.
Proof.
  intros Hreq Ha Hin.
  assert (Hs : socket s <> None) by exact (inbox_socket _ _ _ Hin).
  assert (Hin1 : inbox (push s request) = m :: rest)
    by (rewrite inbox_push; exact Hin).
  assert (Hstate : snd (run c s) = pop (push s request)).
  { destruct c; simpl in Hreq; inversion Hreq; subst request; clear Hreq;
      simpl; rewrite snd_outcome.
    - apply (exchange_state _ _ _ _ _ Ha Hin). intros r t. reflexivity.
    - apply (exchange_state _ _ _ _ _ Ha Hin). intros r t. reflexivity.
    - apply (exchange_state _ _ _ _ _ Ha Hin). intros r t. reflexivity.
    - apply (exchange_state _ _ _ _ _ Ha Hin). intros r t.
      unfold bind, get_main_message.
      destruct (msg r) as [[] |]; try reflexivity.
      destruct body. reflexivity.
    - apply (exchange_state _ _ _ _ _ Ha Hin). intros r t. reflexivity.
    - apply (exchange_state _ _ _ _ _ Ha Hin). intros r t. reflexivity.
    - exact (execute_query_state _ _ _ _ Ha Hin). }
  rewrite Hstate. split; [reflexivity |]. split; [| split].
  - rewrite wire_pop, (wire_push _ _ Hs), Ha. reflexivity.
  - exact (inbox_pop _ _ _ Hin1).
  - rewrite authenticated_pop, authenticated_push. exact Ha.
Qed.

Lemma exchange_result {A : Type} (request : iRODSMessage)
    (k : iRODSMessage -> M A) (s : iRODSSession) (m : iRODSMessage)
    (rest : list iRODSMessage) :
  authenticated s = true -> inbox s = m :: rest ->
  bind ensure_authenticated
    (fun _ => bind (_send request) (fun _ => bind _recv k)) s
  = if int_info m <? 0
    then (inl (get_exception_by_code (int_info m)), pop (push s request))
    else k m (pop (push s request)).
Proof.
  intros Ha Hin.
  assert (Hs : socket s <> None) by exact (inbox_socket _ _ _ Hin).
  assert (Hin1 : inbox (push s request) = m :: rest)
    by (rewrite inbox_push; exact Hin).
  unfold bind at 1. rewrite (ensure_authenticated_done _ Ha).
  unfold bind at 1. rewrite (send_connected _ _ Hs). unfold bind.
  destruct (Z.ltb_spec (int_info m) 0) as [Hneg | Hpos].
  - rewrite (recv_negative _ _ _ Hin1 Hneg). reflexivity.
  - rewrite (recv_nonnegative _ _ _ Hin1 Hpos). reflexivity.
Qed.

(** X7. What the descriptor methods hand back is what the reply holds,
    unchecked. On a logged-in session, a reply of negative status makes
    [open_file], [read_file], [write_file], [close_file] and
    [unlink_data_object] raise the exception of the table. Otherwise
    [open_file] returns the status field as the descriptor; [read_file]
    returns the payload of the reply as it is, whatever size was asked
    for; [write_file] returns the status field as the count of bytes,
    whatever the length of the data sent; [close_file] and
    [unlink_data_object] return nothing. *)
Theorem descriptor_methods_return_reply (path : string) (mode desc size : Z)
    (data : bytes) (s : iRODSSession) (m : iRODSMessage)
    (rest : list iRODSMessage) :
  authenticated s = true -> inbox s = m :: rest ->
  (int_info m < 0 ->
   fst (open_file path mode s) = inl (get_exception_by_code (int_info m))
   /\ fst (read_file desc size s) = inl (get_exception_by_code (int_info m))
   /\ fst (write_file desc data s) = inl (get_exception_by_code (int_info m))
   /\ fst (close_file desc s) = inl (get_exception_by_code (int_info m))
   /\ fst (unlink_data_object path s)
      = inl (get_exception_by_code (int_info m)))
  /\ (0 <= int_info m ->
      fst (open_file path mode s) = inr (int_info m)
      /\ fst (read_file desc size s) = inr (bs m)
      /\ fst (write_file desc data s) = inr (int_info m)
      /\ fst (close_file desc s) = inr tt
      /\ fst (unlink_data_object path s) = inr tt).
Proof.
  intros Ha Hin.
  unfold open_file, read_file, write_file, close_file, unlink_data_object.
  cbv zeta. rewrite !(exchange_result _ _ _ _ _ Ha Hin).
  split.
  - intros Hneg. apply Z.ltb_lt in Hneg. rewrite Hneg. repeat split.
  - intros Hpos. apply Z.ltb_ge in Hpos. rewrite Hpos. repeat split.
Qed.

(** ** Creating a data object: the failures *)

(** X8. When the create reply has a negative status,
    [create_data_object] raises the exception of the table after its one
    request: no close request and no query is sent. When the create
    succeeds and the close reply has a negative status, it raises the
    exception of the close reply after the create and the close request,
    and the object is never looked up. *)
Theorem create_data_object_failures (path : string) (s : iRODSSession)
    (m : iRODSMessage) (rest : list iRODSMessage) :
  authenticated s = true -> inbox s = m :: rest ->
  (int_info m < 0 ->
   create_data_object path s
   = (inl (get_exception_by_code (int_info m)),
      pop (push s (create_request path)))
   /\ wire (pop (push s (create_request path)))
      = wire s ++ [(true, create_request path)])
  /\ (forall c others,
        0 <= int_info m -> rest = c :: others -> int_info c < 0 ->
        create_data_object path s
        = (inl (get_exception_by_code (int_info c)),
           pop (push (pop (push s (create_request path)))
                  (close_request (int_info m))))
        /\ wire (pop (push (pop (push s (create_request path)))
                        (close_request (int_info m))))
           = wire s
             ++ [(true, create_request path);
                 (true, close_request (int_info m))]).
Proof.
  intros Ha Hin.
  assert (Hs : socket s <> None) by exact (inbox_socket _ _ _ Hin).
  assert (Hin1 : inbox (push s (create_request path)) = m :: rest)
    by (rewrite inbox_push; exact Hin).
  assert (Hw1 : wire (pop (push s (create_request path)))
                = wire s ++ [(true, create_request path)])
    by (rewrite wire_pop, (wire_push _ _ Hs), Ha; reflexivity).
  split.
  - intros Hneg. split; [| exact Hw1].
    unfold create_data_object. unfold bind at 1.
    rewrite (ensure_authenticated_done _ Ha). unfold bind at 1.
    fold (create_request path). rewrite (send_connected _ _ Hs).
    unfold bind at 1. rewrite (recv_negative _ _ _ Hin1 Hneg). reflexivity.
  - intros c others Hpos Hrest Hneg. subst rest.
    set (s1 := pop (push s (create_request path))) in *.
    assert (Ha1 : authenticated s1 = true)
      by (unfold s1; rewrite authenticated_pop, authenticated_push; exact Ha).
    assert (Hi1 : inbox s1 = c :: others) by exact (inbox_pop _ _ _ Hin1).
    assert (Hs1 : socket s1 <> None) by exact (inbox_socket _ _ _ Hi1).
    split.
    + rewrite (create_data_object_sent _ _ _ _ Ha Hin Hpos). fold s1.
      unfold bind at 1. unfold close_file. cbv zeta.
      fold (close_request (int_info m)).
      rewrite (exchange_result _ _ _ _ _ Ha1 Hi1).
      apply Z.ltb_lt in Hneg. rewrite Hneg. reflexivity.
    + rewrite wire_pop, (wire_push _ _ Hs1), Ha1, Hw1, <- app_assoc.
      reflexivity.
Qed.

(** ** Queries: what the empty-result policy does not cover *)

Lemma login_challenge_rejected (s : iRODSSession) (c : iRODSMessage)
    (rest : list iRODSMessage) :
  inbox s = c :: rest -> int_info c < 0 ->
  _login s = (inl (get_exception_by_code (int_info c)), pop (push s auth_req)).
Proof.
  intros Hin Hneg.
  assert (Hs : socket s <> None) by exact (inbox_socket _ _ _ Hin).
  assert (Hin1 : inbox (push s auth_req) = c :: rest)
    by (rewrite inbox_push; exact Hin).
  unfold _login, bind.
  rewrite (send_connected _ _ Hs), (recv_negative _ _ _ Hin1 Hneg).
  reflexivity.
Qed.

(** X9. The [try] of [execute_query] starts after the login and the
    send. When the query is run on a session that has not logged in and
    a reply of the handshake, the challenge or the final envelope, has a
    negative status that the table maps to [CAT_NO_ROWS_FOUND],
    [execute_query] raises [CAT_NO_ROWS_FOUND] instead of returning an
    empty result set, and the query itself is never sent. *)
Theorem no_rows_during_login_is_raised (q : Query) (s : iRODSSession)
    (c : iRODSMessage) (rest : list iRODSMessage) :
  authenticated s = false -> inbox s = c :: rest ->
  (int_info c < 0 ->
   get_exception_by_code (int_info c) = CAT_NO_ROWS_FOUND ->
   execute_query q s = (inl CAT_NO_ROWS_FOUND, pop (push s auth_req))
   /\ wire (pop (push s auth_req)) = wire s ++ [(false, auth_req)])
  /\ (forall body f others,
        0 <= int_info c -> msg c = Some (authRequestOut_PI body) ->
        rest = f :: others -> int_info f < 0 ->
        get_exception_by_code (int_info f) = CAT_NO_ROWS_FOUND ->
        execute_query q s
        = (inl CAT_NO_ROWS_FOUND, pop (challenged s (challenge body)))
        /\ wire (pop (challenged s (challenge body)))
           = wire s
             ++ [(false, auth_req);
                 (false,
                  pwd_request (encoded_pwd (challenge body) (password s))
                    (user s))]).
Proof.
  intros Ha Hin.
  assert (Hs : socket s <> None) by exact (inbox_socket _ _ _ Hin).
  split.
  - intros Hneg Hcode. split.
    + unfold execute_query. unfold bind at 1.
      rewrite (ensure_authenticated_login _ Ha).
      rewrite (login_challenge_rejected _ _ _ Hin Hneg), Hcode. reflexivity.
    + rewrite wire_pop, (wire_push _ _ Hs), Ha. reflexivity.
  - intros body f others Hpos Hmsg Hrest Hneg Hcode. subst rest.
    destruct (login_challenged _ _ _ _ Hin Hpos Hmsg) as [Hlogin Hin2].
    split.
    + unfold execute_query. unfold bind at 1.
      rewrite (ensure_authenticated_login _ Ha), Hlogin.
      rewrite (conclude_login_rejected _ _ _ Hin2 Hneg), Hcode. reflexivity.
    + rewrite wire_pop, (wire_challenged _ _ Hs), Ha. reflexivity.
Qed.

(** ** Resolving what does not exist *)

Lemma empty_result_length (cols : list Column) :
  (length (ResultSet_of (empty_gen_query_out cols)) =? 1) = false.
Proof. reflexivity. Qed.

(** X10. When the server answers the collection query with the status
    of "no rows found", [get_collection] raises
    [CollectionDoesNotExist], not [CAT_NO_ROWS_FOUND]. [get_data_object]
    then raises [CollectionDoesNotExist] as well, for the directory part
    of its path, having sent the collection query only. When the parent
    collection is found and it is the object query that finds no row,
    [get_data_object] raises [DataObjectDoesNotExist]. *)
Theorem resolving_the_missing (path : string) (s : iRODSSession)
    (m : iRODSMessage) (rest : list iRODSMessage) :
  authenticated s = true -> inbox s = m :: rest ->
  (int_info m < 0 ->
   get_exception_by_code (int_info m) = CAT_NO_ROWS_FOUND ->
   get_collection path s
   = (inl CollectionDoesNotExist,
      pop (push s (query_request (collection_query path))))
   /\ get_data_object path s
      = (inl CollectionDoesNotExist,
         pop (push s (query_request (collection_query (dirname path))))))
  /\ (forall raw row parent_id n others,
        0 <= int_info m -> msg m = Some (GenQueryOut_PI raw) ->
        rows (ResultSet_of raw) = [row] ->
        dict_get Column_eqb row (attr Collection "id") = inr parent_id ->
        rest = n :: others -> int_info n < 0 ->
        get_exception_by_code (int_info n) = CAT_NO_ROWS_FOUND ->
        fst (get_data_object path s) = inl DataObjectDoesNotExist).
Proof.
  intros Ha Hin.
  assert (Hcoll : forall p,
            int_info m < 0 ->
            get_exception_by_code (int_info m) = CAT_NO_ROWS_FOUND ->
            get_collection p s
            = (inl CollectionDoesNotExist,
               pop (push s (query_request (collection_query p))))).
  { intros p Hneg Hcode. rewrite get_collection_eq. unfold bind.
    rewrite (execute_query_no_rows _ _ _ _ Ha Hin Hneg Hcode).
    unfold one_collection. rewrite empty_result_length. reflexivity. }
  split.
  - intros Hneg Hcode. split; [exact (Hcoll path Hneg Hcode) |].
    rewrite get_data_object_eq. unfold bind at 1.
    rewrite (Hcoll (dirname path) Hneg Hcode). reflexivity.
  - intros raw row parent_id n others Hpos Hmsg Hrow Hid Hrest Hneg Hcode.
    subst rest.
    set (s1 := pop (push s (query_request (collection_query (dirname path))))).
    assert (Hs : socket s <> None) by exact (inbox_socket _ _ _ Hin).
    assert (Hin1 : inbox (push s (query_request
                                    (collection_query (dirname path))))
                   = m :: n :: others)
      by (rewrite inbox_push; exact Hin).
    assert (Ha1 : authenticated s1 = true)
      by (unfold s1; rewrite authenticated_pop, authenticated_push; exact Ha).
    assert (Hi1 : inbox s1 = n :: others) by exact (inbox_pop _ _ _ Hin1).
    rewrite get_data_object_eq. unfold bind at 1.
    rewrite get_collection_eq. unfold bind at 1.
    rewrite (execute_query_table _ _ _ _ raw Ha Hin Hpos Hmsg). fold s1.
    destruct (one_row_length _ _ Hrow) as [Hlen Hfirst].
    unfold one_collection. rewrite Hlen, Hfirst.
    unfold ret, bind, collection_id, row_get, lift.
    change (1 =? 1) with true. cbv beta iota. simpl collection_row.
    rewrite Hid.
    rewrite (execute_query_no_rows _ _ _ _ Ha1 Hi1 Hneg Hcode).
    unfold one_data_object. rewrite empty_result_length. reflexivity.
Qed.

(** X11. [get_meta], called on a logged-in session for a model class
    that has a resource type, returns the empty list when the server
    answers with the status of "no rows found"; it does not raise. *)
Theorem get_meta_of_nothing (model_cls : Model) (resource_type path : string)
    (s : iRODSSession) (m : iRODSMessage) (rest : list iRODSMessage) :
  _model_class_to_resource_type model_cls = inr resource_type ->
  authenticated s = true -> inbox s = m :: rest -> int_info m < 0 ->
  get_exception_by_code (int_info m) = CAT_NO_ROWS_FOUND ->
  fst (get_meta model_cls path s) = inr []
  /\ inbox (snd (get_meta model_cls path s)) = rest.
Proof.
  intros Hrt Ha Hin Hneg Hcode.
  assert (Hs : socket s <> None) by exact (inbox_socket _ _ _ Hin).
  destruct model_cls; simpl in Hrt; try discriminate Hrt;
    unfold get_meta, bind, lift, all; simpl;
    rewrite (execute_query_no_rows _ _ _ _ Ha Hin Hneg Hcode); simpl;
    (split; [reflexivity |]);
    apply (inbox_pop _ m); rewrite inbox_push; exact Hin.
Qed.

(** ** The metadata requests *)

Lemma inbox_pop_tl (s : iRODSSession) : inbox (pop s) = tl (inbox s).
Proof.
  unfold pop, iRODSMessage_recv, inbox.
  destruct (socket s) as [[o [| m rest]] |] eqn:E; simpl; rewrite ?E;
    reflexivity.
Qed.

Lemma recv_done_inbox (t : iRODSSession) :
  inbox (snd (bind _recv (fun _ => ret tt) t)) = tl (inbox t).
Proof.
  unfold bind, _recv, bind.
  destruct (iRODSMessage_recv t) as [[e | r] t1] eqn:E.
  - change t1 with (snd (@inl exn iRODSMessage e, t1)). rewrite <- E.
    apply inbox_pop_tl.
  - assert (H1 : inbox t1 = tl (inbox t)).
    { change t1 with (snd (@inr exn iRODSMessage r, t1)). rewrite <- E.
      apply inbox_pop_tl. }
    destruct (int_info r <? 0); simpl; exact H1.
Qed.

Lemma sent_then_received (request : iRODSMessage) (s : iRODSSession) :
  socket s <> None ->
  let s' := snd (bind (_send request)
                   (fun _ => bind _recv (fun _ => ret tt)) s) in
  wire s' = wire s ++ [(authenticated s, request)]
  /\ authenticated s' = authenticated s
  /\ inbox s' = tl (inbox s).
Proof.
  intros Hs s'.
  assert (Heq : s' = snd (bind _recv (fun _ => ret tt) (push s request))).
  { unfold s'. unfold bind at 1. rewrite (send_connected _ _ Hs).
    reflexivity. }
  rewrite Heq.
  destruct (recv_done_keeps (push s request)) as [Hw Ha].
  rewrite Hw, Ha, (recv_done_inbox (push s request)).
  rewrite (wire_push _ _ Hs), authenticated_push, inbox_push.
  repeat split.
Qed.

(** X15. [add_meta], [remove_meta] and [copy_meta], given model classes
    that have a resource type and a connected session, send one
    request whatever the [authenticated] flag is, and never log in
    first: the request carries the verb ("add", "rm" or "cp"), a dash
    followed by the resource type, the path and the three fields of the
    metadata (for [copy_meta]: both resource types and both paths). They
    take one reply off the socket and leave the flag as it was. *)
Theorem metadata_methods_send_one_request (model_cls dest_cls : Model)
    (resource_type dest_type path dest : string) (meta : iRODSMeta)
    (s : iRODSSession) :
  _model_class_to_resource_type model_cls = inr resource_type ->
  _model_class_to_resource_type dest_cls = inr dest_type ->
  socket s <> None ->
  let modify_avu verb :=
    api_request "MOD_AVU_METADATA_AN"
      (ModAVUMetadataInp
         [verb; String.append "-" resource_type; path;
          meta_name meta; meta_value meta; meta_units meta])
      None in
  let copy_avu :=
    api_request "MOD_AVU_METADATA_AN"
      (ModAVUMetadataInp
         ["cp"; String.append "-" resource_type;
          String.append "-" dest_type; path; dest])
      None in
  let sent request s' :=
    wire s' = wire s ++ [(authenticated s, request)]
    /\ authenticated s' = authenticated s
    /\ inbox s' = tl (inbox s) in
  sent (modify_avu "add") (snd (add_meta model_cls path meta s))
  /\ sent (modify_avu "rm") (snd (remove_meta model_cls path meta s))
  /\ sent copy_avu (snd (copy_meta model_cls dest_cls path dest s)).
Proof.
  intros Hrt Hdt Hs modify_avu copy_avu sent.
  unfold sent, modify_avu, copy_avu. split; [| split].
  - unfold add_meta. unfold bind at 1, lift. rewrite Hrt.
    exact (sent_then_received _ s Hs).
  - unfold remove_meta. unfold bind at 1, lift. rewrite Hrt.
    exact (sent_then_received _ s Hs).
  - unfold copy_meta. unfold bind at 1, lift. rewrite Hrt.
    unfold bind at 1. rewrite Hdt.
    exact (sent_then_received _ s Hs).
Qed.

(** ** Splitting a path *)

Lemma rsplit_slash_append (p : string) :
  String.append (fst (rsplit_slash p)) (snd (rsplit_slash p)) = p.
Proof.
  induction p as [| c p IH]; simpl; [reflexivity |].
  destruct (rsplit_slash p) as [[| c' head] tail]; simpl in *.
  - destruct (is_slash c); reflexivity.
  - rewrite IH. reflexivity.
Qed.

Lemma rsplit_slash_head (p : string) :
  fst (rsplit_slash p) = EmptyString -> has_slash p = false.
Proof.
  induction p as [| c p IH]; simpl; [reflexivity |].
  destruct (rsplit_slash p) as [[| c' head] tail]; simpl in *.
  - destruct (is_slash c); simpl; [discriminate |].
    intros _. apply IH. reflexivity.
  - discriminate.
Qed.

Lemma basename_no_slash (p : string) : has_slash (basename p) = false.
Proof.
  unfold basename. induction p as [| c p IH]; simpl; [reflexivity |].
  pose proof (rsplit_slash_head p) as Hhead.
  destruct (rsplit_slash p) as [[| c' head] tail]; simpl in *.
  - destruct (is_slash c) eqn:Hc; simpl.
    + apply Hhead. reflexivity.
    + rewrite Hc. apply Hhead. reflexivity.
  - exact IH.
Qed.

Lemma rstrip_slash_prefix (s : string) :
  exists rest, s = String.append (rstrip_slash s) rest.
Proof.
  induction s as [| c s [rest IH]]; simpl.
  - exists EmptyString. reflexivity.
  - destruct (rstrip_slash s) as [| c' kept] eqn:E.
    + destruct (is_slash c).
      * exists (String c s). reflexivity.
      * exists s. reflexivity.
    + exists rest. simpl. simpl in IH. rewrite <- IH. reflexivity.
Qed.

Lemma append_assoc (a b c : string) :
  String.append (String.append a b) c = String.append a (String.append b c).
Proof. induction a as [| x a IH]; simpl; [| rewrite IH]; reflexivity. Qed.

(** X16. How [get_data_object] splits its path. The name it looks up,
    [basename(path)], never holds a slash, and it is what follows the
    last slash of the path: the part before it, up to and with that
    slash, followed by the name, is the path again. The parent it looks
    up, [dirname(path)], is a prefix of the path. A path without a slash
    is all name, and its parent is looked up under the empty path; a
    path that ends with a slash has the empty name. *)
Theorem path_is_split_at_the_last_slash (path : string) :
  has_slash (basename path) = false
  /\ String.append (fst (rsplit_slash path)) (basename path) = path
  /\ (has_slash path = false ->
      basename path = path /\ dirname path = EmptyString)
  /\ basename (String.append path "/") = EmptyString
  /\ (exists rest, path = String.append (dirname path) rest).
Proof.
  split; [apply basename_no_slash |].
  split; [apply rsplit_slash_append |].
  split.
  { intros H.
    assert (Hsplit : rsplit_slash path = (EmptyString, path)).
    { induction path as [| c p IH]; simpl in *; [reflexivity |].
      apply orb_false_iff in H. destruct H as [Hc Hp].
      rewrite (IH Hp), Hc. reflexivity. }
    unfold basename, dirname. rewrite Hsplit. split; reflexivity. }
  split.
  { unfold basename. induction path as [| c p IH]; simpl; [reflexivity |].
    destruct (rsplit_slash (String.append p "/")) as [[| c' head] tail] eqn:E;
      simpl in *.
    - exfalso. pose proof (rsplit_slash_head (String.append p "/")) as Hh.
      rewrite E in Hh. specialize (Hh eq_refl).
      clear - Hh. induction p as [| d p IHp]; simpl in *; [discriminate |].
      apply orb_false_iff in Hh. destruct Hh as [_ Hh]. exact (IHp Hh).
    - exact IH. }
  pose proof (rsplit_slash_append path) as Happ. unfold dirname.
  destruct (negb (String.eqb (fst (rsplit_slash path)) "")
            && negb (String.eqb (fst (rsplit_slash path))
                       (slashes (String.length (fst (rsplit_slash path)))))).
  - destruct (rstrip_slash_prefix (fst (rsplit_slash path))) as [rest Hrest].
    exists (String.append rest (snd (rsplit_slash path))).
    rewrite <- append_assoc, <- Hrest. symmetry. exact Happ.
  - exists (snd (rsplit_slash path)). symmetry. exact Happ.
Qed.

(** ** The password buffer *)

Lemma firstn_repeat_x00 (n k : nat) :
  firstn n (repeat x00 k) = repeat x00 (Nat.min n k).
Proof.
  revert k. induction n as [| n IH]; intros [| k]; simpl; try reflexivity.
  rewrite IH. reflexivity.
Qed.

(** Null bytes at the end of the string never change the buffer. *)
Lemma struct_pack_s_trailing_nulls (n k : nat) (s : bytes) :
  struct_pack_s n (s ++ repeat x00 k) = struct_pack_s n s.
Proof.
  unfold struct_pack_s. rewrite firstn_app, firstn_repeat_x00, length_app,
    repeat_length, <- app_assoc, <- repeat_app.
  destruct (Nat.le_gt_cases n (List.length s)) as [Hle | Hgt].
  - replace (Nat.min (n - List.length s) k
             + (n - (List.length s + k)))%nat with 0%nat by lia.
    replace (n - List.length s)%nat with 0%nat by lia. reflexivity.
  - rewrite (firstn_all2 s) by lia. f_equal. f_equal. lia.
Qed.

(** Beyond the length of the buffer nothing counts. *)
Lemma struct_pack_s_prefix (n : nat) (s s' : bytes) :
  (n <= List.length s)%nat -> (n <= List.length s')%nat ->
  firstn n s = firstn n s' -> struct_pack_s n s = struct_pack_s n s'.
Proof.
  intros H H' Heq. rewrite (struct_pack_s_long _ _ H), (struct_pack_s_long _ _ H').
  exact Heq.
Qed.

Lemma list_byte_of_string_append (a b : string) :
  list_byte_of_string (String.append a b)
  = list_byte_of_string a ++ list_byte_of_string b.
Proof.
  induction a as [| c a IH]; simpl.
  - reflexivity.
  - unfold list_byte_of_string in *. simpl. rewrite IH. reflexivity.
Qed.

(** X12. Two passwords answer a challenge with the same digest when
    they differ only by null bytes at the end, or when both are at least
    [MAX_PASSWORD_LENGTH] bytes long and agree on their first
    [MAX_PASSWORD_LENGTH] bytes: what lies beyond the buffer is never
    hashed. *)
Theorem passwords_with_the_same_buffer (nonce : bytes) (secret other : string) :
  (forall k,
      encoded_pwd nonce
        (String.append secret (string_of_list_byte (repeat x00 k)))
      = encoded_pwd nonce secret)
  /\ ((MAX_PASSWORD_LENGTH <= List.length (list_byte_of_string secret))%nat ->
      (MAX_PASSWORD_LENGTH <= List.length (list_byte_of_string other))%nat ->
      firstn MAX_PASSWORD_LENGTH (list_byte_of_string secret)
      = firstn MAX_PASSWORD_LENGTH (list_byte_of_string other) ->
      encoded_pwd nonce secret = encoded_pwd nonce other).
Proof.
  split.
  - intros k. rewrite !encoded_pwd_eq, list_byte_of_string_append.
    rewrite list_byte_of_string_of_list_byte, struct_pack_s_trailing_nulls.
    reflexivity.
  - intros H H' Heq. rewrite !encoded_pwd_eq.
    rewrite (struct_pack_s_prefix _ _ _ H H' Heq). reflexivity.
Qed.

(** ** Connecting *)

Section Connecting.

Variable network : Network.
Variable unset_int_info : Z.

(** X13. [configure] stores its five arguments and connects. When the
    connection cannot be opened it raises
    [Exception("Could not connect to specified host and port")] and the
    socket is what it was before. When it can, the session has a new
    socket on which it has sent the startup message with its user and
    zone, and has taken the first reply off it: with a status that is
    not negative [configure] returns, with a negative status it raises
    the exception of the table, and the new socket stays in place either
    way. With no reply to read the receive fails. *)
Theorem configure_outcomes (host : string) (port : Z)
    (user zone password : string) (s : iRODSSession) :
  let run_configure :=
    configure network unset_int_info host port user zone password s in
  let connected_to rest :=
    mkSession host port user zone password
      (Some (mkSocket
               [(authenticated s, startup_message unset_int_info user zone)]
               rest))
      (authenticated s) in
  (network host port = None ->
   run_configure
   = (inl (Exception "Could not connect to specified host and port"),
      mkSession host port user zone password (socket s) (authenticated s)))
  /\ (forall v rest,
        network host port = Some (v :: rest) -> 0 <= int_info v ->
        run_configure = (inr tt, connected_to rest))
  /\ (forall v rest,
        network host port = Some (v :: rest) -> int_info v < 0 ->
        run_configure
        = (inl (get_exception_by_code (int_info v)), connected_to rest))
  /\ (network host port = Some [] ->
      run_configure = (inl socket_error, connected_to [])).
Proof.
  intros run_configure connected_to. unfold run_configure, connected_to.
  unfold configure, _connect, bind, modify, gets. simpl.
  split; [| split; [| split]].
  - intros H. rewrite H. reflexivity.
  - intros v rest H Hpos. rewrite H. simpl.
    unfold _send, _recv, bind, iRODSMessage_recv. simpl.
    apply Z.ltb_ge in Hpos. rewrite Hpos. reflexivity.
  - intros v rest H Hneg. rewrite H. simpl.
    unfold _send, _recv, bind, iRODSMessage_recv. simpl.
    apply Z.ltb_lt in Hneg. rewrite Hneg. reflexivity.
  - intros H. rewrite H. reflexivity.
Qed.

Lemma configure_flag (host : string) (port : Z) (user zone password : string)
    (s : iRODSSession) :
  authenticated
    (snd (configure network unset_int_info host port user zone password s))
  = authenticated s.
Proof.
  unfold configure, _connect, bind, modify, gets. simpl.
  destruct (network host port) as [[| v rest] |]; simpl; try reflexivity.
  unfold _send, _recv, bind, iRODSMessage_recv. simpl.
  destruct (int_info v <? 0); reflexivity.
Qed.

Lemma wire_configure (host : string) (port : Z) (user zone password : string)
    (s : iRODSSession) (v : iRODSMessage) (rest : list iRODSMessage) :
  network host port = Some (v :: rest) ->
  wire (snd (configure network unset_int_info host port user zone password s))
  = [(authenticated s, startup_message unset_int_info user zone)].
Proof.
  intros H. unfold configure, _connect, bind, modify, gets. simpl.
  rewrite H. simpl. unfold _send, _recv, bind, iRODSMessage_recv. simpl.
  destruct (int_info v <? 0); reflexivity.
Qed.

(** X14. [configure] never touches the [authenticated] flag, and
    [__init__] sets it to false before anything else. So a session built
    by [__init__] has not logged in, with or without arguments; and a
    session that has logged in and is configured again is still taken
    to be logged in: on the new socket, after the startup message, no
    public method sends a message of the handshake. *)
Theorem configure_keeps_flag (host : string) (port : Z)
    (user zone password : string) (s : iRODSSession) :
  let s' :=
    snd (configure network unset_int_info host port user zone password s) in
  authenticated s' = authenticated s
  /\ (forall args object,
        authenticated (snd (__init__ network unset_int_info args object))
        = false)
  /\ (forall object,
        socket (snd (__init__ network unset_int_info None object)) = None)
  /\ (forall v rest c,
        authenticated s = true ->
        network host port = Some (v :: rest) ->
        exists tail,
          wire (snd (run c s'))
          = (true, startup_message unset_int_info user zone) :: tail
          /\ Forall (fun entry => handshake (snd entry) = false) tail).
Proof.
  intros s'. split; [apply configure_flag |]. split; [| split].
  - intros [[[[[h p] u] z] pw] |] object.
    + unfold __init__, bind, modify. simpl. rewrite configure_flag.
      reflexivity.
    + reflexivity.
  - intros object. reflexivity.
  - intros v rest c Ha Hnet.
    assert (Ha' : authenticated s' = true)
      by (unfold s'; rewrite configure_flag; exact Ha).
    assert (Hw : wire s' = [(true, startup_message unset_int_info user zone)]).
    { unfold s'. rewrite (wire_configure _ _ _ _ _ _ v rest Hnet), Ha.
      reflexivity. }
    destruct (run_quiet c s' Ha') as [_ [tail [Hw' F]]].
    exists tail. split.
    + rewrite Hw', Hw. reflexivity.
    + eapply Forall_impl; [| exact F]. intros entry [_ H]. exact H.
Qed.

End Connecting.

End Extras.

(** * The claims on concrete sessions *)

#[local] Existing Instance sample_imports.

(** ** Examples *)

Example md5_empty :
  hexdigest (MD5.digest []) = "d41d8cd98f00b204e9800998ecf8427e".
Proof. vm_compute. reflexivity. Qed.

Example md5_abc :
  hexdigest (MD5.digest (list_byte_of_string "abc"))
  = "900150983cd24fb0d6963f7d28e17f72".
Proof. vm_compute. reflexivity. Qed.

Example md5_two_blocks :
  hexdigest (MD5.digest (repeat x61 70)) = "0f5c6c4e740bfcc08c3c26ccb2673d46"
  /\ hexdigest (MD5.digest (repeat x61 56)) = "3b0c8ac703f828b04c6c197006d17218".
Proof. vm_compute. split; reflexivity. Qed.

Example dirname_report :
  dirname "/zoneA/home/alice/report.txt" = "/zoneA/home/alice"
  /\ basename "/zoneA/home/alice/report.txt" = "report.txt"
  /\ dirname "/report.txt" = "/" /\ dirname "report.txt" = ""
  /\ dirname "/a//b" = "/a" /\ basename "/a/b/" = "".
Proof. repeat split; reflexivity. Qed.

Example encoded_pwd_secret :
  hexdigest (encoded_pwd sample_challenge "secret")
  = "17e34f1ef941d366b5905bdc32207a34".
Proof. vm_compute. reflexivity. Qed.

(** A digest with a null byte, which goes out as the byte 1. *)
Example encoded_pwd_null_byte :
  hexdigest
    (MD5.digest
       (list_byte_of_string "nonce10"
        ++ struct_pack_s 50 (list_byte_of_string "secret")))
  = "5a860092f2b7f642ca1ec83e584f6c3b"
  /\ hexdigest (encoded_pwd (list_byte_of_string "nonce10") "secret")
     = "5a860192f2b7f642ca1ec83e584f6c3b".
Proof. vm_compute. split; reflexivity. Qed.

(** A password longer than the buffer counts up to the buffer's length. *)
Example encoded_pwd_long_password :
  hexdigest (encoded_pwd sample_challenge (string_of_list_ascii (repeat "p"%char 60)))
  = "42368ca017fac1abcdc1786e5e83742b"
  /\ encoded_pwd sample_challenge (string_of_list_ascii (repeat "p"%char 60))
     = encoded_pwd sample_challenge (string_of_list_ascii (repeat "p"%char 50)).
Proof. vm_compute. split; reflexivity. Qed.

(** ** Runs on the sample sessions *)


Lemma recv_checks_status_first_witness :
  inbox (logged_in [no_rows_reply]) = [no_rows_reply]
  /\ int_info no_rows_reply < 0
  /\ _recv (logged_in [no_rows_reply])
     = (inl CAT_NO_ROWS_FOUND, pop (logged_in [no_rows_reply])).
Proof.
  split; [reflexivity |]. split; [reflexivity |].
  exact (proj1 (proj1 (recv_checks_status_first
                         (logged_in [no_rows_reply]) no_rows_reply []
                         eq_refl)
                  eq_refl)).
Defined.

Lemma execute_query_outcomes_witness :
  ensure_authenticated (logged_in [no_rows_reply])
  = (inr tt, logged_in [no_rows_reply])
  /\ inbox (logged_in [no_rows_reply]) = [no_rows_reply]
  /\ execute_query (collection_query "/zoneA/home/bob")
       (logged_in [no_rows_reply])
     = (inr (mkResultSet (model_columns Collection) []),
        pop (push (logged_in [no_rows_reply])
               (query_request (collection_query "/zoneA/home/bob")))).
Proof.
  split; [reflexivity |]. split; [reflexivity |].
  exact (proj1 (execute_query_outcomes (collection_query "/zoneA/home/bob")
                  (logged_in [no_rows_reply]) (logged_in [no_rows_reply])
                  no_rows_reply [] eq_refl eq_refl)
           eq_refl eq_refl).
Defined.

Lemma login_digest_witness :
  inbox (connected [challenge_reply; reply None 0])
  = [challenge_reply; reply None 0]
  /\ 0 <= int_info challenge_reply
  /\ List.length (encoded_pwd sample_challenge "secret") = 16%nat
  /\ wire (snd (_login (connected [challenge_reply; reply None 0])))
     = [(false, auth_req);
        (false, pwd_request (encoded_pwd sample_challenge "secret") "alice")].
Proof.
  split; [reflexivity |]. split; [discriminate |].
  pose proof (login_digest sample_challenge "secret") as H.
  cbv zeta in H.
  destruct H as [_ [_ [_ [_ [_ [Hlen [_ [_ Hwire]]]]]]]].
  split; [exact Hlen |].
  exact (Hwire (connected [challenge_reply; reply None 0]) challenge_reply
           [reply None 0] eq_refl ltac:(discriminate) eq_refl eq_refl).
Defined.

Lemma create_returns_fetched_object_witness :
  authenticated
    (logged_in [reply None 3; reply None 0; table_reply collection_table;
                table_reply data_object_table]) = true
  /\ 0 <= int_info (reply None 3)
  /\ fst (create_data_object report_txt
            (logged_in [reply None 3; reply None 0;
                        table_reply collection_table;
                        table_reply data_object_table]))
     = fst (get_data_object report_txt
              (logged_in [table_reply collection_table;
                          table_reply data_object_table])).
Proof.
  split; [reflexivity |]. split; [discriminate |].
  rewrite (proj1 (create_returns_fetched_object report_txt
                    (logged_in [reply None 3; reply None 0;
                                table_reply collection_table;
                                table_reply data_object_table])
                    (reply None 3) (reply None 0)
                    [table_reply collection_table;
                     table_reply data_object_table]
                    eq_refl eq_refl ltac:(discriminate) ltac:(discriminate))).
  reflexivity.
Defined.

Lemma resolve_requires_one_match_witness :
  execute_query (collection_query "/zoneA/home/alice")
    (logged_in [table_reply collection_table])
  = (inr (ResultSet_of collection_table),
     pop (push (logged_in [table_reply collection_table])
            (query_request (collection_query "/zoneA/home/alice"))))
  /\ get_collection "/zoneA/home/alice"
       (logged_in [table_reply collection_table])
     = (inr (mkCollection
               [(attr Collection "id", "10001");
                (attr Collection "name", "/zoneA/home/alice")]),
        pop (push (logged_in [table_reply collection_table])
               (query_request (collection_query "/zoneA/home/alice")))).
Proof.
  split; [reflexivity |].
  destruct (resolve_requires_one_match "/zoneA/home/alice"
              (logged_in [table_reply collection_table]))
    as [_ [_ [Hone _]]].
  exact (proj1 (Hone _ _ eq_refl) _ eq_refl).
Defined.

Lemma failed_login_stays_unauthenticated_witness :
  authenticated (connected [challenge_reply; rejected_reply]) = false
  /\ inbox (connected [challenge_reply; rejected_reply])
     = [challenge_reply; rejected_reply]
  /\ int_info rejected_reply < 0
  /\ _login (connected [challenge_reply; rejected_reply])
     = (inl (iRODSException "CAT_INVALID_AUTHENTICATION"),
        pop (challenged (connected [challenge_reply; rejected_reply])
               sample_challenge)).
Proof.
  split; [reflexivity |]. split; [reflexivity |]. split; [reflexivity |].
  exact (proj1 (failed_login_stays_unauthenticated
                  (connected [challenge_reply; rejected_reply])
                  challenge_reply rejected_reply []
                  (mkAuthRequestOut sample_challenge)
                  eq_refl eq_refl ltac:(discriminate) eq_refl)
           eq_refl).
Defined.

Lemma seek_file_returns_offset_witness :
  authenticated (logged_in [offset_reply 10; offset_reply 15]) = true
  /\ lseek_reply 0 100 (seek_request 3 10 SEEK_SET) = Some (offset_reply 10)
  /\ lseek_reply 10 100 (seek_request 3 5 SEEK_CUR) = Some (offset_reply 15)
  /\ exists t1 t2,
       seek_file 3 10 SEEK_SET (logged_in [offset_reply 10; offset_reply 15])
       = (inr 10, t1)
       /\ seek_file 3 5 SEEK_CUR t1 = (inr 15, t2).
Proof.
  split; [reflexivity |]. split; [reflexivity |]. split; [reflexivity |].
  destruct (seek_file_returns_offset 3 10 SEEK_SET
              (logged_in [offset_reply 10; offset_reply 15])
              (offset_reply 10) [offset_reply 15] 10
              eq_refl eq_refl ltac:(discriminate) eq_refl)
    as [_ [_ [_ [_ Htwo]]]].
  exact (Htwo 0 100 (logged_in [offset_reply 10; offset_reply 15])
           (offset_reply 10) (offset_reply 15) []
           eq_refl eq_refl eq_refl eq_refl).
Defined.

Lemma get_meta_user_queries_resource_witness :
  authenticated (logged_in [no_rows_reply]) = true
  /\ wire (snd (get_meta User "alice" (logged_in [no_rows_reply])))
     = [(true,
         query_request
           (meta_query ResourceMeta [col_eq (attr Resource "name") "alice"]))].
Proof.
  split; [reflexivity |].
  exact (proj1 (proj2 (proj2 (get_meta_user_queries_resource "alice"
                                (logged_in [no_rows_reply]))))
           eq_refl ltac:(discriminate)).
Defined.

(** ** The metadata methods and the login guard *)

(** C1. [add_meta], called on a connected session that has not logged
    in, with one reply waiting, returns without raising; the one message
    it sent is its own request, which is no message of the handshake,
    sent while [authenticated] was false, and the flag is still false
    afterwards. The log, in order before the call, is out of order after
    it. [remove_meta] and [copy_meta] do the same. *)
Theorem add_meta_sends_before_login :
  authenticated (connected [reply None 0]) = false
  /\ log_ok (connected [reply None 0])
  /\ add_meta DataObject report_txt owner_meta (connected [reply None 0])
     = (inr tt,
        mkSession "localhost" 1247 "alice" "zoneA" "secret"
          (Some (mkSocket [(false, add_owner_request)] [])) false)
  /\ handshake add_owner_request = false
  /\ entry_ok (false, add_owner_request) = false
  /\ ~ log_ok
       (snd (run (call_add_meta DataObject report_txt owner_meta)
               (connected [reply None 0])))
  /\ ~ log_ok
       (snd (run (call_remove_meta DataObject report_txt owner_meta)
               (connected [reply None 0])))
  /\ ~ log_ok
       (snd (run (call_copy_meta DataObject Collection report_txt
                    "/zoneA/home/alice")
               (connected [reply None 0]))).
Proof.
  split; [reflexivity |]. split; [constructor |]. split; [reflexivity |].
  split; [reflexivity |]. split; [reflexivity |].
  repeat split; intros H; vm_compute in H; inversion H as [| x l Hx Hl];
    discriminate Hx.
Qed.

(** ** The exception of a failed login *)

(** C7, as stated, fails: with a final envelope that carries an error
    segment, [_login] raises the plain [Exception], which is no
    [AuthenticationError]. *)
Lemma failed_login_raises_plain_exception :
  fst (_login (connected [challenge_reply; error_reply]))
  = inl (Exception "Unsuccessful login attempt")
  /\ class_name (Exception "Unsuccessful login attempt") = "Exception"
  /\ ~ raises_AuthenticationError
         (_login (connected [challenge_reply; error_reply])).
Proof.
  assert (H : fst (_login (connected [challenge_reply; error_reply]))
              = inl (Exception "Unsuccessful login attempt")).
  { vm_compute. reflexivity. }
  split; [exact H |]. split; [reflexivity |].
  intros [e [He Hname]]. rewrite H in He. inversion He. subst e.
  discriminate Hname.
Qed.

(** ** Further runs on the sample sessions *)

Lemma authenticated_after_call_witness :
  guarded (call_open_file report_txt 0) = true
  /\ fst (run (call_open_file report_txt 0)
            (connected [challenge_reply; reply None 0; reply None 3]))
     = None
  /\ authenticated
       (snd (run (call_open_file report_txt 0)
               (connected [challenge_reply; reply None 0; reply None 3])))
     = true.
Proof.
  assert (H : fst (run (call_open_file report_txt 0)
                     (connected [challenge_reply; reply None 0; reply None 3]))
              = None) by (vm_compute; reflexivity).
  split; [reflexivity |]. split; [exact H |].
  exact (proj2 (authenticated_after_call (call_open_file report_txt 0)
                  (connected [challenge_reply; reply None 0; reply None 3]))
           eq_refl H).
Defined.

Lemma login_runs_once_witness :
  guarded (call_open_file report_txt 0) = true
  /\ authenticated
       (connected [challenge_reply; reply None 0; reply None 3; reply None 0])
     = false
  /\ fst (run (call_open_file report_txt 0)
            (connected [challenge_reply; reply None 0; reply None 3;
                        reply None 0]))
     = None
  /\ exists nonce tail,
       wire (snd (run (call_close_file 3)
                    (snd (run (call_open_file report_txt 0)
                            (connected [challenge_reply; reply None 0;
                                        reply None 3; reply None 0])))))
       = (false, auth_req)
         :: (false, pwd_request (encoded_pwd nonce "secret") "alice") :: tail
       /\ Forall (fun entry => fst entry = true
                               /\ handshake (snd entry) = false) tail.
Proof.
  assert (H : fst (run (call_open_file report_txt 0)
                     (connected [challenge_reply; reply None 0; reply None 3;
                                 reply None 0]))
              = None) by (vm_compute; reflexivity).
  split; [reflexivity |]. split; [reflexivity |]. split; [exact H |].
  exact (login_runs_once (call_open_file report_txt 0) (call_close_file 3)
           (connected [challenge_reply; reply None 0; reply None 3;
                       reply None 0])
           eq_refl eq_refl H).
Defined.

Lemma no_socket_raises_witness :
  socket blank = None
  /\ exists e,
       run (call_get_collection "/zoneA/home/alice") blank = (Some e, blank)
       /\ (e = AttributeError \/ e = KeyError)
       /\ (guarded (call_get_collection "/zoneA/home/alice") = true ->
           e = AttributeError).
Proof.
  split; [reflexivity |].
  exact (no_socket_raises (call_get_collection "/zoneA/home/alice") blank
           eq_refl).
Defined.

Lemma unmapped_model_class_raises_witness :
  _model_class_to_resource_type UserMeta = inl KeyError
  /\ add_meta UserMeta "alice" owner_meta (connected [reply None 0])
     = (inl KeyError, connected [reply None 0]).
Proof.
  split; [reflexivity |].
  exact (proj1 (proj2 (unmapped_model_class_raises UserMeta eq_refl
                         "alice" owner_meta User "alice" "bob"
                         (connected [reply None 0])))).
Defined.

Lemma one_request_one_reply_witness :
  request_of (call_read_file 3 100)
  = Some (api_request "DATA_OBJ_READ201_AN" (dataObjReadInp 3 100) None)
  /\ authenticated (logged_in [rejected_reply; reply None 0]) = true
  /\ inbox (snd (run (call_read_file 3 100)
                   (logged_in [rejected_reply; reply None 0])))
     = [reply None 0].
Proof.
  split; [reflexivity |]. split; [reflexivity |].
  exact (proj1 (proj2 (proj2 (one_request_one_reply (call_read_file 3 100)
                                _ (logged_in [rejected_reply; reply None 0])
                                rejected_reply [reply None 0]
                                eq_refl eq_refl eq_refl)))).
Defined.

Lemma descriptor_methods_return_reply_witness :
  authenticated (logged_in [reply None 3]) = true
  /\ 0 <= int_info (reply None 3)
  /\ fst (open_file report_txt 0 (logged_in [reply None 3])) = inr 3
  /\ fst (write_file 3 (list_byte_of_string "twelve bytes")
            (logged_in [reply None 3])) = inr 3.
Proof.
  split; [reflexivity |]. split; [discriminate |].
  pose proof (proj2 (descriptor_methods_return_reply report_txt 0 3 0
                       (list_byte_of_string "twelve bytes")
                       (logged_in [reply None 3]) (reply None 3) []
                       eq_refl eq_refl)
                ltac:(discriminate)) as H.
  destruct H as [Hopen [_ [Hwrite _]]].
  split; [exact Hopen | exact Hwrite].
Defined.

Lemma create_data_object_failures_witness :
  authenticated (logged_in [rejected_reply; reply None 0]) = true
  /\ int_info rejected_reply < 0
  /\ fst (create_data_object report_txt
            (logged_in [rejected_reply; reply None 0]))
     = inl (iRODSException "CAT_INVALID_AUTHENTICATION")
  /\ inbox (snd (create_data_object report_txt
                   (logged_in [rejected_reply; reply None 0])))
     = [reply None 0].
Proof.
  split; [reflexivity |]. split; [reflexivity |].
  assert (Hneg : int_info rejected_reply < 0) by reflexivity.
  rewrite (proj1 (proj1 (create_data_object_failures report_txt
                           (logged_in [rejected_reply; reply None 0])
                           rejected_reply [reply None 0] eq_refl eq_refl)
                    Hneg)).
  split; reflexivity.
Defined.

Lemma no_rows_during_login_is_raised_witness :
  authenticated (connected [no_rows_reply]) = false
  /\ int_info no_rows_reply < 0
  /\ get_exception_by_code (int_info no_rows_reply) = CAT_NO_ROWS_FOUND
  /\ fst (execute_query (collection_query "/zoneA") (connected [no_rows_reply]))
     = inl CAT_NO_ROWS_FOUND.
Proof.
  assert (Hneg : int_info no_rows_reply < 0) by reflexivity.
  assert (Hcode : get_exception_by_code (int_info no_rows_reply)
                  = CAT_NO_ROWS_FOUND) by reflexivity.
  split; [reflexivity |]. split; [exact Hneg |]. split; [exact Hcode |].
  rewrite (proj1 (proj1 (no_rows_during_login_is_raised
                           (collection_query "/zoneA")
                           (connected [no_rows_reply]) no_rows_reply []
                           eq_refl eq_refl)
                    Hneg Hcode)).
  reflexivity.
Defined.

Lemma resolving_the_missing_witness :
  authenticated (logged_in [no_rows_reply]) = true
  /\ get_exception_by_code (int_info no_rows_reply) = CAT_NO_ROWS_FOUND
  /\ fst (get_data_object report_txt (logged_in [no_rows_reply]))
     = inl CollectionDoesNotExist.
Proof.
  assert (Hneg : int_info no_rows_reply < 0) by reflexivity.
  assert (Hcode : get_exception_by_code (int_info no_rows_reply)
                  = CAT_NO_ROWS_FOUND) by reflexivity.
  split; [reflexivity |]. split; [exact Hcode |].
  rewrite (proj2 (proj1 (resolving_the_missing report_txt
                           (logged_in [no_rows_reply]) no_rows_reply []
                           eq_refl eq_refl)
                    Hneg Hcode)).
  reflexivity.
Defined.

Lemma get_meta_of_nothing_witness :
  _model_class_to_resource_type DataObject = inr "d"
  /\ authenticated (logged_in [no_rows_reply]) = true
  /\ fst (get_meta DataObject report_txt (logged_in [no_rows_reply])) = inr [].
Proof.
  split; [reflexivity |]. split; [reflexivity |].
  exact (proj1 (get_meta_of_nothing DataObject "d" report_txt
                  (logged_in [no_rows_reply]) no_rows_reply []
                  eq_refl eq_refl eq_refl eq_refl eq_refl)).
Defined.

Lemma passwords_with_the_same_buffer_witness :
  encoded_pwd sample_challenge
    (String.append "secret" (string_of_list_byte (repeat x00 3)))
  = encoded_pwd sample_challenge "secret".
Proof.
  exact (proj1 (passwords_with_the_same_buffer sample_challenge "secret"
                  "secret") 3%nat).
Defined.

Lemma configure_outcomes_witness :
  one_server "localhost" 1247 [reply None 0] "data.example.org" 1247 = None
  /\ configure (one_server "localhost" 1247 [reply None 0]) 0
       "data.example.org" DEFAULT_PORT "alice" "zoneA" "secret" blank
     = (inl (Exception "Could not connect to specified host and port"),
        mkSession "data.example.org" 1247 "alice" "zoneA" "secret" None false).
Proof.
  split; [reflexivity |].
  exact (proj1 (configure_outcomes (one_server "localhost" 1247 [reply None 0])
                  0 "data.example.org" DEFAULT_PORT "alice" "zoneA" "secret"
                  blank)
           eq_refl).
Defined.

Lemma configure_keeps_flag_witness :
  authenticated (logged_in []) = true
  /\ one_server "localhost" 1247 [reply None 0; reply None 3] "localhost" 1247
     = Some [reply None 0; reply None 3]
  /\ exists tail,
       wire (snd (run (call_open_file report_txt 0)
                    (snd (configure
                            (one_server "localhost" 1247
                               [reply None 0; reply None 3])
                            0 "localhost" 1247 "alice" "zoneA" "secret"
                            (logged_in [])))))
       = (true, startup_message 0 "alice" "zoneA") :: tail
       /\ Forall (fun entry => handshake (snd entry) = false) tail.
Proof.
  split; [reflexivity |]. split; [reflexivity |].
  exact (proj2 (proj2 (proj2 (configure_keeps_flag
                                (one_server "localhost" 1247
                                   [reply None 0; reply None 3])
                                0 "localhost" 1247 "alice" "zoneA" "secret"
                                (logged_in []))))
           (reply None 0) [reply None 3] (call_open_file report_txt 0)
           eq_refl eq_refl).
Defined.

Lemma metadata_methods_send_one_request_witness :
  _model_class_to_resource_type DataObject = inr "d"
  /\ _model_class_to_resource_type Collection = inr "c"
  /\ socket (connected [reply None 0]) <> None
  /\ wire (snd (copy_meta DataObject Collection report_txt "/zoneA/home/alice"
                  (connected [reply None 0])))
     = [(false,
         api_request "MOD_AVU_METADATA_AN"
           (ModAVUMetadataInp
              ["cp"; "-d"; "-c"; report_txt; "/zoneA/home/alice"])
           None)].
Proof.
  split; [reflexivity |]. split; [reflexivity |]. split; [discriminate |].
  exact (proj1 (proj2 (proj2 (metadata_methods_send_one_request
                                DataObject Collection "d" "c" report_txt
                                "/zoneA/home/alice" owner_meta
                                (connected [reply None 0])
                                eq_refl eq_refl ltac:(discriminate))))).
Defined.

Lemma path_is_split_at_the_last_slash_witness :
  has_slash "report.txt" = false
  /\ basename "report.txt" = "report.txt" /\ dirname "report.txt" = "".
Proof.
  split; [reflexivity |].
  exact (proj1 (proj2 (proj2 (path_is_split_at_the_last_slash "report.txt")))
           eq_refl).
Defined.
